(** * sync_rulesets: reconciling ruleset files against the GitHub API

    A shallow embedding of [scripts/sync_rulesets.py] and the proofs of
    its specification.

    Text is modelled by [string]: a Python [str] restricted to the code
    points below 256, one [ascii] per code point.  A file of the store
    holds the characters of its content, as they decode from its bytes;
    [Path.read_text] reads them in text mode, and [Path.write_text]
    writes on a system whose line separator is the line feed. *)

From Stdlib Require Import Ascii String ZArith NArith Lia.
From stdpp Require Import gmap strings list fin_maps pretty sorting.

#[local] Set Warnings "-clear-no-such-hyp".

(** ** Python's [str] primitives used by the script *)

Module Str.

(** [c.isspace()] on the code points below 256. *)
Definition isspace (c : ascii) : bool :=
  let n := N_of_ascii c in
  ((9 <=? n) && (n <=? 13) || (28 <=? n) && (n <=? 32)
   || (n =? 133) || (n =? 160))%N.

(** The line boundaries of [str.splitlines] below 256. *)
Definition is_linebreak (c : ascii) : bool :=
  let n := N_of_ascii c in
  ((10 <=? n) && (n <=? 13) || (28 <=? n) && (n <=? 30) || (n =? 133))%N.

Fixpoint lstrip (s : string) : string :=
  match s with
  | String c s' => if isspace c then lstrip s' else s
  | EmptyString => EmptyString
  end.

Fixpoint rstrip (s : string) : string :=
  match s with
  | String c s' =>
      match rstrip s' with
      | EmptyString => if isspace c then EmptyString else String c EmptyString
      | r => String c r
      end
  | EmptyString => EmptyString
  end.

(** [s.strip()] *)
Definition strip (s : string) : string := rstrip (lstrip s).

(** [any(p(c) for c in s)] *)
Fixpoint any (p : ascii -> bool) (s : string) : bool :=
  match s with
  | String c s' => p c || any p s'
  | EmptyString => false
  end.

(** [s.startswith(p)] *)
Definition startswith (s p : string) : bool := String.prefix p s.

(** [sub in s] *)
Fixpoint contains (sub s : string) : bool :=
  String.prefix sub s ||
  match s with
  | String _ s' => contains sub s'
  | EmptyString => false
  end.

(** [sep.join(l)] *)
Fixpoint join (sep : string) (l : list string) : string :=
  match l with
  | [] => ""
  | [x] => x
  | x :: l' => x +:+ sep +:+ join sep l'
  end.

(** [s.splitlines()]: a carriage return followed by a line feed is one
    boundary, and no empty last line is produced. *)
Fixpoint splitlines (s : string) : list string :=
  match s with
  | EmptyString => []
  | String c rest =>
      if is_linebreak c then
        match rest with
        | String c' rest' =>
            if (N_of_ascii c =? 13)%N && (N_of_ascii c' =? 10)%N
            then "" :: splitlines rest'
            else "" :: splitlines rest
        | EmptyString => [""]
        end
      else
        match splitlines rest with
        | [] => [String c ""]
        | l :: ls => String c l :: ls
        end
  end.

(** [s.split(sep)] for a separator of one character. *)
Fixpoint split (sep : ascii) (s : string) : list string :=
  match s with
  | EmptyString => [""]
  | String c rest =>
      if Ascii.eqb c sep then "" :: split sep rest
      else
        match split sep rest with
        | [] => [String c ""]
        | p :: ps => String c p :: ps
        end
  end.

(** What text mode makes of the characters of a file when it reads
    them (universal newlines): a carriage return, alone or followed by a
    line feed, is read as one line feed. *)
Fixpoint universal_newlines (s : string) : string :=
  match s with
  | EmptyString => EmptyString
  | String c rest =>
      if (N_of_ascii c =? 13)%N then
        match rest with
        | String c' rest' =>
            if (N_of_ascii c' =? 10)%N
            then String "010" (universal_newlines rest')
            else String "010" (universal_newlines rest)
        | EmptyString => String "010" EmptyString
        end
      else String c (universal_newlines rest)
  end.

(** [k.lower()] on the code points below 256. *)
Definition lower_char (c : ascii) : ascii :=
  let n := N_of_ascii c in
  if ((65 <=? n) && (n <=? 90) || (192 <=? n) && (n <=? 214)
      || (216 <=? n) && (n <=? 222))%N
  then ascii_of_N (n + 32) else c.

Fixpoint lower (s : string) : string :=
  match s with
  | String c s' => String (lower_char c) (lower s')
  | EmptyString => EmptyString
  end.

End Str.

(** ** Constants of the script *)

Definition ORG : string := "CursorCult".
Definition API_BASE : string := "https://api.github.com".
Definition TAG_REQUIRED : string := "v1".

(** ** Values of the run *)

(** What [json.loads] returns. *)
#[warnings="-register-all"]
Inductive json :=
| JNull
| JBool (b : bool)
| JInt (n : Z)
| JFloat (lexeme : string)
| JString (s : string)
| JList (items : list json)
| JDict (d : gmap string json).

(** [type(data).__name__] *)
Definition type_name (data : json) : string :=
  match data with
  | JNull => "NoneType"
  | JBool _ => "bool"
  | JInt _ => "int"
  | JFloat _ => "float"
  | JString _ => "str"
  | JList _ => "list"
  | JDict _ => "dict"
  end.

(** [type(data)] as an f-string prints it. *)
Definition type_repr (data : json) : string :=
  "<class '" +:+ type_name data +:+ "'>".

Inductive exn :=
| GitHubApiError (status : Z) (url body : string)
| RuntimeError (msg : string)
| AttributeError (msg : string)
| SystemExit (msg : string)
| FileNotFoundError (path : string)
| LibraryError (name : string).
(** [LibraryError] stands for what [urlopen], [read], [decode] and
    [json.loads] raise besides [HTTPError]: [URLError], a timeout,
    [UnicodeDecodeError], [JSONDecodeError]. *)

(** The answer of the remote service to one request. *)
Inductive response :=
| Responded (data : json) (headers : list (string * string))
| HTTPError (code : Z) (body : option string)
| Failed (name : string).
(** [HTTPError code None]: reading or decoding the body of the error
    failed as well.  [Failed name]: [urlopen], [read], [decode] or
    [json.loads] raised the exception [name], which is no [HTTPError]. *)

(** The mutable world of a run: the texts of the files, the URLs
    requested so far and the lines printed so far. *)
Record world := World {
  files : gmap string string;
  requests : list string;
  stdout : list string
}.

Definition log_request (url : string) (w : world) : world :=
  World (files w) (requests w ++ [url]) (stdout w).
Definition set_file (path content : string) (w : world) : world :=
  World (<[path := content]> (files w)) (requests w) (stdout w).
Definition put_line (line : string) (w : world) : world :=
  World (files w) (requests w) (stdout w ++ [line]).

(** ** The monad of the script: state, exceptions and fuel *)

Inductive result (A : Type) :=
| Ok (a : A)
| Raise (e : exn)
| OutOfFuel.
Arguments Ok {A} a.
Arguments Raise {A} e.
Arguments OutOfFuel {A}.

Definition M (A : Type) : Type := world -> result A * world.

Definition ret {A} (a : A) : M A := fun w => (Ok a, w).
Definition raise {A} (e : exn) : M A := fun w => (Raise e, w).
Definition out_of_fuel {A} : M A := fun w => (OutOfFuel, w).
Definition bind {A B} (m : M A) (k : A -> M B) : M B :=
  fun w =>
    match m w with
    | (Ok a, w') => k a w'
    | (Raise e, w') => (Raise e, w')
    | (OutOfFuel, w') => (OutOfFuel, w')
    end.
(** [try: m except Exception as e: handler e] *)
Definition try_except {A} (m : M A) (handler : exn -> M A) : M A :=
  fun w =>
    match m w with
    | (Raise e, w') => handler e w'
    | r => r
    end.

Notation "'let*' x ':=' m 'in' k" := (bind m (fun x => k))
  (at level 10, x binder, k at level 200).

Definition print (line : string) : M unit := fun w => (Ok tt, put_line line w).
(** [path.read_text(encoding="utf-8")] *)
Definition read_text (path : string) : M string :=
  fun w =>
    match files w !! path with
    | Some content => (Ok (Str.universal_newlines content), w)
    | None => (Raise (FileNotFoundError path), w)
    end.
(** [path.write_text(content, encoding="utf-8")] *)
Definition write_text (path content : string) : M unit :=
  fun w => (Ok tt, set_file path content w).

(** ** [urllib.parse.quote] *)

Module Quote.

Definition hex_digit (n : N) : ascii :=
  if (n <? 10)%N then ascii_of_N (48 + n) else ascii_of_N (55 + n).

Definition percent (byte : N) : string :=
  String "%" (String (hex_digit (byte / 16)) (String (hex_digit (byte mod 16)) "")).

(** The letters, the digits and [_.-~] are never quoted; [/] is the
    default [safe] character. *)
Definition unreserved (c : ascii) : bool :=
  let n := N_of_ascii c in
  ((65 <=? n) && (n <=? 90) || (97 <=? n) && (n <=? 122)
   || (48 <=? n) && (n <=? 57)
   || (n =? 95) || (n =? 46) || (n =? 45) || (n =? 126) || (n =? 47))%N.

(** A code point from 128 to 255 takes two bytes in UTF-8. *)
Definition quote_char (c : ascii) : string :=
  let n := N_of_ascii c in
  if unreserved c then String c ""
  else if (n <? 128)%N then percent n
  else percent (192 + n / 64) +:+ percent (128 + n mod 64).

Fixpoint quote (s : string) : string :=
  match s with
  | String c s' => quote_char c +:+ quote s'
  | EmptyString => EmptyString
  end.

End Quote.

(** ** The remote validator *)

Section Remote.

(** The remote service: the answer to a request for a URL made with a
    bearer token. *)
Variable service : string -> string -> response.

(** [{k.lower(): v for k, v in resp.headers.items()}] *)
Definition lower_keys (headers : list (string * string)) : gmap string string :=
  foldl (fun d kv => <[Str.lower kv.1 := kv.2]> d) ∅ headers.

Definition _request_json (url token : string) : M (json * gmap string string) :=
  fun w =>
    let w' := log_request url w in
    match service token url with
    | Responded data headers => (Ok (data, lower_keys headers), w')
    | HTTPError code body =>
        (Raise (GitHubApiError code url (default "" body)), w')
    | Failed name => (Raise (LibraryError name), w')
    end.

(** The characters up to the first [>], when there is one. *)
Fixpoint until_gt (s : string) : option string :=
  match s with
  | EmptyString => None
  | String c s' =>
      if Ascii.eqb c ">" then Some "" else String c <$> until_gt s'
  end.

(** [re.search(r"<([^>]+)>", s)]: group 1 of the leftmost match. *)
Fixpoint search_angle (s : string) : option string :=
  match s with
  | EmptyString => None
  | String c s' =>
      if Ascii.eqb c "<" then
        match until_gt s' with
        | Some (String g gs) => Some (String g gs)
        | _ => search_angle s'
        end
      else search_angle s'
  end.

(** The text [rel="next"]. *)
Definition REL_NEXT : string :=
  "rel=" +:+ String "034" ("next" +:+ String "034" "").

(** The loop of [_paginate] over the parts of the link header; the
    result is [next_url]. *)
Fixpoint next_url_loop (parts : list string) : option string :=
  match parts with
  | [] => None
  | part :: parts' =>
      let part := Str.strip part in
      if bool_decide (part = "") then next_url_loop parts'
      else if Str.contains REL_NEXT part then search_angle part
      else next_url_loop parts'
  end.

Definition next_url_of (headers : gmap string string) : option string :=
  let link := default "" (headers !! "link") in
  next_url_loop (Str.split "," link).

(** [for item in items: yield item], run against the body of the
    consumer's loop: [Some r] when the body returns [r] from the
    consumer (the generator is then dropped), [None] when it falls
    through to the next item. *)
Fixpoint yield_each {R} (items : list json) (body : json -> M (option R))
  : M (option R) :=
  match items with
  | [] => ret None
  | item :: items' =>
      let* r := body item in
      match r with
      | Some x => ret (Some x)
      | None => yield_each items' body
      end
  end.

(** The generator [_paginate], driven by the [for] loop that consumes
    it.  One unit of fuel is spent on each test of [while url]. *)
Fixpoint _paginate {R} (fuel : nat) (url : option string) (token : string)
    (body : json -> M (option R)) : M (option R) :=
  match fuel with
  | O => out_of_fuel
  | S fuel' =>
      match url with
      | None => ret None
      | Some u =>
          if bool_decide (u = "") then ret None
          else
            let* '(data, headers) := _request_json u token in
            match data with
            | JList items =>
                let* r := yield_each items body in
                match r with
                | Some x => ret (Some x)
                | None => _paginate fuel' (next_url_of headers) token body
                end
            | _ =>
                raise (RuntimeError ("Expected list response for " +:+ u
                                     +:+ ", got " +:+ type_repr data))
            end
      end
  end.

Definition repo_url (repo : string) : string :=
  API_BASE +:+ "/repos/" +:+ Quote.quote ORG +:+ "/" +:+ Quote.quote repo.

(** [inl b]: the handler of the [try] returned [b] from the function;
    [inr x]: the [try] ended with [x] and the function goes on. *)
Definition repo_exists (repo token : string) : M bool :=
  let url := repo_url repo in
  let* r :=
    try_except
         (let* x := _request_json url token in ret (inr x))
         (fun e =>
            match e with
            | GitHubApiError status _ _ =>
                if (status =? 404)%Z then ret (inl false) else raise e
            | _ => raise e
            end) in
  match r with
  | inl b => ret b
  | inr (JDict d, _) =>
      match d !! "archived" with
      | Some (JBool true) => ret false
      | _ =>
          match d !! "fork" with
          | Some (JBool true) => ret false
          | _ => ret true
          end
      end
  | inr (_, _) => ret false
  end.

Definition tags_url (repo : string) : string :=
  repo_url repo +:+ "/tags?per_page=100".

(** The body of the loop of [repo_has_required_tag]. *)
Definition tag_body (item : json) : M (option bool) :=
  match item with
  | JDict d =>
      match d !! "name" with
      | Some (JString name) =>
          if bool_decide (Str.strip name = TAG_REQUIRED) then ret (Some true)
          else ret None
      | _ => ret None
      end
  | _ =>
      raise (AttributeError ("'" +:+ type_name item
                             +:+ "' object has no attribute 'get'"))
  end.

Definition repo_has_required_tag (fuel : nat) (repo token : string) : M bool :=
  let url := tags_url repo in
  let* r := _paginate fuel (Some url) token tag_body in
  match r with
  | Some b => ret b
  | None => ret false
  end.

End Remote.

(** ** Entry normalisation *)

Definition normalize_rule_name (raw : string) : option string :=
  let s := Str.strip raw in
  if bool_decide (s = "") || Str.startswith s "#" then None
  else if Str.any Str.isspace s then None
  else if Str.startswith s "." || Str.startswith s "_" then None
  else Some s.

(** The local variables of [read_ruleset_file]. *)
Record reader := Reader {
  rules : list string;
  dropped : list string;
  seen : gset string
}.

(** One turn of the loop of [read_ruleset_file]. *)
Definition read_ruleset_step (r : reader) (line : string) : reader :=
  match normalize_rule_name line with
  | None => r
  | Some name =>
      if bool_decide (name ∈ seen r) then r
      else Reader (rules r ++ [name]) (dropped r) ({[name]} ∪ seen r)
  end.

Definition read_ruleset_lines (raw_lines : list string) : list string * list string :=
  let r := foldl read_ruleset_step (Reader [] [] ∅) raw_lines in
  (rules r, dropped r).

Definition read_ruleset_file (path : string) : M (list string * list string) :=
  let* text := read_text path in
  ret (read_ruleset_lines (Str.splitlines text)).

(** ** Writing and reconciling *)

(** The text of one line feed. *)
Definition newline : string := String "010" "".

Definition write_ruleset_file (path : string) (rules : list string) : M unit :=
  let content := Str.join newline rules +:+ (if rules is [] then "" else newline) in
  write_text path content.

Section Sync.

Variable service : string -> string -> response.
Variable fuel : nat.

(** The loop of [sync_ruleset] over [rules]. *)
Fixpoint sync_loop (rules : list string) (token : string)
    (kept removed : list string) : M (list string * list string) :=
  match rules with
  | [] => ret (kept, removed)
  | rule :: rules' =>
      let* e := repo_exists service rule token in
      if negb e then sync_loop rules' token kept (removed ++ [rule])
      else
        let* t := repo_has_required_tag service fuel rule token in
        if negb t then sync_loop rules' token kept (removed ++ [rule])
        else sync_loop rules' token (kept ++ [rule]) removed
  end.

Definition sync_ruleset (path token : string) (check_only : bool)
  : M (bool * list string) :=
  let* '(rules, _) := read_ruleset_file path in
  let* '(kept, removed) := sync_loop rules token [] [] in
  let* original := read_text path in
  let updated := Str.join newline kept +:+ (if kept is [] then "" else newline) in
  let changed := negb (bool_decide (updated = original)) in
  let* _ :=
    if changed && negb check_only then write_text path updated else ret tt in
  ret (changed, removed).

(** What [main] reads of the process: the environment variables and
    the regular files [rulesets/*.txt], [None] when [rulesets] is not
    a directory. *)
Record process := Process {
  environ : gmap string string;
  rulesets_txt : option (list string)
}.

(** [os.getenv(a) or os.getenv(b)] *)
Definition getenv_or (p : process) (a b : string) : option string :=
  match environ p !! a with
  | Some (String c s) => Some (String c s)
  | _ => environ p !! b
  end.

Definition _token (p : process) : M string :=
  match getenv_or p "GITHUB_TOKEN" "GH_TOKEN" with
  | Some (String c s) => ret (String c s)
  | _ => raise (SystemExit "Missing GITHUB_TOKEN (or GH_TOKEN) in environment.")
  end.

(** The loop of [main] over [files]; the result is [changed_any]. *)
Fixpoint main_loop (paths : list string) (token : string)
    (check_only changed_any : bool) : M bool :=
  match paths with
  | [] => ret changed_any
  | path :: paths' =>
      let* '(changed, removed) := sync_ruleset path token check_only in
      let* _ :=
        if removed is [] then ret tt
        else print (path +:+ ": removed " +:+ pretty (length removed)
                    +:+ " -> " +:+ Str.join ", " removed) in
      if changed then
        let* _ := print (path +:+ ": "
                         +:+ (if check_only then "would change" else "updated")) in
        main_loop paths' token check_only true
      else
        let* _ := print (path +:+ ": ok") in
        main_loop paths' token check_only changed_any
  end.

Definition main (p : process) (argv : list string) : M Z :=
  let check_only := bool_decide ("--check" ∈ argv) in
  let* token := _token p in
  match rulesets_txt p with
  | None => raise (SystemExit "Missing rulesets/ directory.")
  | Some found =>
      let paths := merge_sort String.le found in
      if paths is [] then
        let* _ := print "No ruleset files found (rulesets/*.txt)." in
        ret 0%Z
      else
        let* changed_any := main_loop paths token check_only false in
        if check_only && changed_any then
          let* _ := print "rulesets invalid: run sync to apply removals" in
          ret 1%Z
        else ret 0%Z
  end.

(** [raise SystemExit(main(sys.argv))]: the exit status of the
    process, when it ends. *)
Definition exit_status (r : result Z) : option Z :=
  match r with
  | Ok n => Some n
  | Raise _ => Some 1%Z
  | OutOfFuel => None
  end.

End Sync.

(** * The vocabulary of the specification *)

(** The serialisation of a list of entries: joined by line feeds, with
    one more line feed at the end unless the list is empty. *)
Definition serialize (l : list string) : string :=
  Str.join newline l +:+ (if l is [] then "" else newline).

(** The invariant of an entry: what [normalize_rule_name] lets through. *)
Definition is_entry (s : string) : Prop :=
  s ≠ "" ∧ Str.startswith s "#" = false ∧ Str.any Str.isspace s = false
  ∧ Str.startswith s "." = false ∧ Str.startswith s "_" = false.

#[global] Instance is_entry_dec s : Decision (is_entry s).
Proof. unfold is_entry. apply _. Defined.

#[global] Instance exn_eq_dec : EqDecision exn.
Proof. solve_decision. Defined.

#[global] Instance result_eq_dec `{EqDecision A} : EqDecision (result A).
Proof. solve_decision. Defined.

(** The entries of a text: what [read_ruleset_file] makes of it. *)
Definition entries_of (text : string) : list string :=
  (read_ruleset_lines (Str.splitlines text)).1.

(** The file reads as [text]. *)
Definition reads_as (fs : gmap string string) (path text : string) : Prop :=
  ∃ content, fs !! path = Some content ∧ Str.universal_newlines content = text.

(** A world with no file, no request and no output. *)
Definition blank : world := World ∅ [] [].

(** What a computation returns, and the requests it makes, from the
    blank world. *)
Definition outcome {A} (m : M A) : result A := (m blank).1.
Definition trace {A} (m : M A) : list string := requests (m blank).2.

(** [w] after the requests [l]. *)
Definition after (w : world) (l : list string) : world :=
  World (files w) (requests w ++ l) (stdout w).

(** A computation that reads no file and only adds requests to the
    world, the same from every world. *)
Definition traced {A} (m : M A) : Prop :=
  ∀ w, m w = (outcome m, after w (trace m)).

(** [v is True] for the value of [d.get(k)]. *)
Definition is_True (v : option json) : bool :=
  match v with
  | Some (JBool true) => true
  | _ => false
  end.

(** A tag item whose name, trimmed, is the required marker. *)
Definition is_marker (item : json) : bool :=
  match item with
  | JDict d =>
      match d !! "name" with
      | Some (JString name) => bool_decide (Str.strip name = TAG_REQUIRED)
      | _ => false
      end
  | _ => false
  end.

Definition is_object (item : json) : Prop :=
  match item with
  | JDict _ => True
  | _ => False
  end.

(** The URLs a scan fetches of the pages [(url, items)]: up to the first
    page that holds the marker. *)
Fixpoint scanned (pages : list (string * list json)) : list string :=
  match pages with
  | [] => []
  | (u, items) :: rest =>
      u :: (if existsb is_marker items then [] else scanned rest)
  end.

Definition holds_marker (pages : list (string * list json)) : bool :=
  existsb (fun p => existsb is_marker p.2) pages.

Section Validator.

Variable service : string -> string -> response.
Variable fuel : nat.
Variable token : string.

(** The validation of one entry, as the loop of [sync_ruleset] does it:
    the existence check, and the tag check when that one passes. *)
Definition is_eligible (rule : string) : M bool :=
  let* e := repo_exists service rule token in
  if negb e then ret false else repo_has_required_tag service fuel rule token.

Definition verdict (rule : string) : result bool := outcome (is_eligible rule).

Definition has_verdict (rule : string) : Prop := ∃ b, verdict rule = Ok b.

Definition eligible (rule : string) : Prop := verdict rule = Ok true.

#[global] Instance eligible_dec rule : Decision (eligible rule).
Proof. unfold eligible. apply _. Defined.

(** The requests that validating the entry makes. *)
Definition entry_trace (rule : string) : list string := trace (is_eligible rule).

(** The metadata of the entry is found, and neither archived nor a fork. *)
Definition found_active (rule : string) : bool :=
  match service token (repo_url rule) with
  | Responded (JDict d) _ =>
      negb (is_True (d !! "archived")) && negb (is_True (d !! "fork"))
  | _ => false
  end.

(** What a request returns. *)
Definition answer (url : string) : result (json * gmap string string) :=
  match service token url with
  | Responded data headers => Ok (data, lower_keys headers)
  | HTTPError code body => Raise (GitHubApiError code url (default "" body))
  | Failed name => Raise (LibraryError name)
  end.

(** What the existence check returns. *)
Definition existence (repo : string) : result bool :=
  match service token (repo_url repo) with
  | Responded _ _ => Ok (found_active repo)
  | HTTPError code body =>
      if (code =? 404)%Z then Ok false
      else Raise (GitHubApiError code (repo_url repo) (default "" body))
  | Failed name => Raise (LibraryError name)
  end.

(** [listing start pages stop]: from the URL [start] the service serves
    the pages [pages], each a list, each linked to the next by its
    continuation pointer; [stop] is the pointer of the last page, [None]
    when the listing ends there. *)
Inductive listing : option string -> list (string * list json) -> option string -> Prop :=
| listing_nil stop : listing stop [] stop
| listing_cons u items headers pages stop :
    u ≠ "" ->
    service token u = Responded (JList items) headers ->
    listing (next_url_of (lower_keys headers)) pages stop ->
    listing (Some u) ((u, items) :: pages) stop.

(** Pages of tag objects, none of them the marker. *)
Definition unmarked (pages : list (string * list json)) : Prop :=
  Forall (fun p => Forall is_object p.2) pages ∧ holds_marker pages = false.

(** [remote_failure rule n e]: validating [rule] meets the remote error
    [e] after [n] pages of tags: an HTTP error other than a 404 on the
    metadata, an HTTP error on a page of tags, a failure of the
    transport or of the decoding, a page that is not a list, an item
    that is not an object. *)
Inductive remote_failure (rule : string) : nat -> exn -> Prop :=
| metadata_status code body :
    service token (repo_url rule) = HTTPError code body ->
    code ≠ 404%Z ->
    remote_failure rule 0 (GitHubApiError code (repo_url rule) (default "" body))
| metadata_failed name :
    service token (repo_url rule) = Failed name ->
    remote_failure rule 0 (LibraryError name)
| tags_status pages u code body :
    found_active rule = true ->
    listing (Some (tags_url rule)) pages (Some u) -> unmarked pages -> u ≠ "" ->
    service token u = HTTPError code body ->
    remote_failure rule (length pages) (GitHubApiError code u (default "" body))
| tags_failed pages u name :
    found_active rule = true ->
    listing (Some (tags_url rule)) pages (Some u) -> unmarked pages -> u ≠ "" ->
    service token u = Failed name ->
    remote_failure rule (length pages) (LibraryError name)
| tags_not_list pages u data headers :
    found_active rule = true ->
    listing (Some (tags_url rule)) pages (Some u) -> unmarked pages -> u ≠ "" ->
    service token u = Responded data headers ->
    (∀ items, data ≠ JList items) ->
    remote_failure rule (length pages)
      (RuntimeError ("Expected list response for " +:+ u +:+ ", got " +:+ type_repr data))
| tags_not_object pages u before item rest headers :
    found_active rule = true ->
    listing (Some (tags_url rule)) pages (Some u) -> unmarked pages -> u ≠ "" ->
    service token u = Responded (JList (before ++ item :: rest)) headers ->
    Forall is_object before -> existsb is_marker before = false ->
    ¬ is_object item ->
    remote_failure rule (length pages)
      (AttributeError ("'" +:+ type_name item +:+ "' object has no attribute 'get'")).

(** A file that can be read and whose entries all get a verdict. *)
Definition reconcilable (fs : gmap string string) (path : string) : Prop :=
  ∃ text, fs !! path = Some text ∧ Forall has_verdict (entries_of text).

(** In check mode a change is detected for the file: the serialisation
    of its eligible entries differs from its text as it is read. *)
Definition would_change (fs : gmap string string) (path : string) : Prop :=
  ∃ text, fs !! path = Some text
          ∧ serialize (filter eligible (entries_of text))
            ≠ Str.universal_newlines text.

End Validator.

(** The claim that every remote answer to the metadata request that is
    neither an object nor a 404 is fatal to the validation. *)
Definition every_remote_error_is_fatal : Prop :=
  ∀ (service : string -> string -> response) (fuel : nat) (token rule : string),
    (∀ d headers, service token (repo_url rule) ≠ Responded (JDict d) headers) ->
    (∀ body, service token (repo_url rule) ≠ HTTPError 404%Z body) ->
    ∃ e, verdict service fuel token rule = Raise e.

(** * A sample service and a sample ruleset *)

Module Demo.

Definition tag (name : string) : json := JDict {[ "name" := JString name ]}.

(** A link header with a previous and a next page. *)
Definition link_to (next : string) : list (string * string) :=
  [("Link",
    "<https://api.github.com/first>; rel=" +:+ String "034" ("prev" +:+ String "034" "")
    +:+ ", <" +:+ next +:+ ">; " +:+ REL_NEXT)].

Definition page2 : string := "https://api.github.com/repositories/1/tags?page=2".
Definition page3 : string := "https://api.github.com/repositories/1/tags?page=3".

(** [r1] is a live repository whose third page of tags holds the marker;
    [old] is archived; [odd] answers with a list instead of an object;
    [busy] is rate limited; every other repository is not found. *)
Definition service (token url : string) : response :=
  if bool_decide (url = repo_url "r1") then
    Responded (JDict {[ "archived" := JBool false; "fork" := JBool false ]}) []
  else if bool_decide (url = tags_url "r1") then
    Responded (JList [tag "v0"]) (link_to page2)
  else if bool_decide (url = page2) then
    Responded (JList [tag "v2"; tag "v1.0"]) (link_to page3)
  else if bool_decide (url = page3) then
    Responded (JList [tag " v1 "; tag "v3"]) []
  else if bool_decide (url = repo_url "old") then
    Responded (JDict {[ "archived" := JBool true; "fork" := JBool false ]}) []
  else if bool_decide (url = repo_url "odd") then
    Responded (JList []) []
  else if bool_decide (url = repo_url "busy") then
    HTTPError 403 (Some "rate limit exceeded")
  else HTTPError 404 None.

Definition r1_pages : list (string * list json) :=
  [(tags_url "r1", [tag "v0"]); (page2, [tag "v2"; tag "v1.0"]);
   (page3, [tag " v1 "; tag "v3"])].

Definition path : string := "rulesets/core.txt".

(** The file holds [r1] and [r2], one per line. *)
Definition text : string := "r1" +:+ newline +:+ "r2" +:+ newline.

Definition world0 : world := World {[ path := text ]} [] [].

Definition proc : process := Process {[ "GITHUB_TOKEN" := "secret" ]} (Some [path]).

End Demo.

(** An environment variable that is not set, or set to the empty text. *)
Definition unset (v : option string) : Prop := v = None ∨ v = Some "".

(** * More samples *)

Module Sample.

(** A file of comments and blank lines only. *)
Definition notes : string :=
  "# reviewed" +:+ newline +:+ newline +:+ "  " +:+ newline.

(** A file whose one entry is followed by a comment. *)
Definition commented : string := "r1" +:+ newline +:+ "# keep" +:+ newline.

Definition notes_path : string := "rulesets/notes.txt".
Definition extra_path : string := "rulesets/extra.txt".

(** Three files: the one of [Demo], one of notes, one with a comment. *)
Definition world3 : world :=
  World {[ Demo.path := Demo.text; notes_path := notes; extra_path := commented ]}
        [] [].

Definition proc3 : process :=
  Process {[ "GH_TOKEN" := "secret" ]} (Some [notes_path; Demo.path; extra_path]).

(** A process with an empty [GITHUB_TOKEN] and no [GH_TOKEN]. *)
Definition proc_no_token : process :=
  Process {[ "GITHUB_TOKEN" := "" ]} (Some [Demo.path]).

(** The entry [r1] on a line that ends with a carriage return and a line
    feed. *)
Definition crlf_text : string := "r1" +:+ String "013" newline.

Definition crlf_world : world := World {[ Demo.path := crlf_text ]} [] [].

(** Two files: the one of [Demo], and one whose entry is rate limited. *)
Definition busy_path : string := "rulesets/zeta.txt".

Definition busy_world : world :=
  World {[ Demo.path := Demo.text; busy_path := "busy" +:+ newline ]} [] [].

Definition busy_proc : process :=
  Process {[ "GITHUB_TOKEN" := "secret" ]} (Some [busy_path; Demo.path]).

(** A service whose listing of tags links back to its first page. *)
Definition looping (token url : string) : response :=
  if bool_decide (url = repo_url "r1") then Responded (JDict ∅) []
  else if bool_decide (url = tags_url "r1") then
    Responded (JList [Demo.tag "v0"]) (Demo.link_to Demo.page2)
  else if bool_decide (url = Demo.page2) then
    Responded (JList [Demo.tag "v2"]) (Demo.link_to (tags_url "r1"))
  else HTTPError 404 None.

End Sample.

(** The claim that the changed flag of a reconciliation that returns
    says whether the serialisation of the kept entries differs from the
    content of the file. *)
Definition changed_iff_content_differs : Prop :=
  ∀ (service : string -> string -> response) (fuel : nat)
    (token path : string) (check_only : bool) (content : string)
    (w : world) (changed : bool) (removed : list string) (w' : world),
    files w !! path = Some content ->
    sync_ruleset service fuel path token check_only w = (Ok (changed, removed), w') ->
    (changed = true
     <-> serialize (filter (eligible service fuel token) (entries_of content))
         ≠ content).

(** * Properties *)

(** ** Text *)

Lemma linebreak_isspace c : Str.is_linebreak c = true -> Str.isspace c = true.
Proof.
  unfold Str.is_linebreak, Str.isspace. generalize (N_of_ascii c). intros n H.
  repeat first [ apply orb_prop in H as [H|H] | apply andb_prop in H as [? ?] ];
    repeat match goal with
    | H : (_ <=? _)%N = true |- _ => apply N.leb_le in H
    | H : (_ =? _)%N = true |- _ => apply N.eqb_eq in H
    end;
    repeat first [ rewrite orb_true_iff | rewrite andb_true_iff ];
    rewrite ?N.leb_le, ?N.eqb_eq; lia.
Qed.

Lemma lstrip_nospace s : Str.any Str.isspace s = false -> Str.lstrip s = s.
Proof.
  destruct s as [|c s]; [done|]. simpl. intros [-> _]%orb_false_elim. done.
Qed.

Lemma rstrip_nospace s : Str.any Str.isspace s = false -> Str.rstrip s = s.
Proof.
  induction s as [|c s IH]; [done|]. simpl. intros [Hc Hs]%orb_false_elim.
  rewrite (IH Hs), Hc. by destruct s.
Qed.

Lemma strip_nospace s : Str.any Str.isspace s = false -> Str.strip s = s.
Proof.
  intros H. unfold Str.strip. rewrite (lstrip_nospace _ H). by apply rstrip_nospace.
Qed.

Lemma strip_entry s : is_entry s -> Str.strip s = s.
Proof. intros (_ & _ & H & _). by apply strip_nospace. Qed.

Lemma any_linebreak_isspace s :
  Str.any Str.isspace s = false -> Str.any Str.is_linebreak s = false.
Proof.
  induction s as [|c s IH]; [done|]. simpl. intros [Hc Hs]%orb_false_elim.
  rewrite (IH Hs), orb_false_r. destruct (Str.is_linebreak c) eqn:E; [|done].
  apply linebreak_isspace in E. congruence.
Qed.

(** A line without boundary, then a line feed: [splitlines] cuts there. *)
Lemma splitlines_line s t :
  Str.any Str.is_linebreak s = false ->
  Str.splitlines (s +:+ newline +:+ t) = s :: Str.splitlines t.
Proof.
  induction s as [|c s IH]; intros H.
  - unfold newline. simpl. destruct t as [|c' t]; [done|]. done.
  - simpl in H. apply orb_false_elim in H as [Hc Hs].
    change (String c s +:+ newline +:+ t) with (String c (s +:+ newline +:+ t)).
    cbn [Str.splitlines]. rewrite Hc, (IH Hs). done.
Qed.

Lemma string_app_assoc (s t u : string) : (s +:+ t) +:+ u = s +:+ t +:+ u.
Proof.
  induction s as [|c s IH]; [done|].
  change (String c ((s +:+ t) +:+ u) = String c (s +:+ t +:+ u)). by rewrite IH.
Qed.

Lemma serialize_cons x l : serialize (x :: l) = x +:+ newline +:+ serialize l.
Proof.
  unfold serialize. destruct l as [|y l]; [done|].
  change (Str.join newline (x :: y :: l)) with (x +:+ newline +:+ Str.join newline (y :: l)).
  generalize (Str.join newline (y :: l)). intros j.
  by rewrite !string_app_assoc.
Qed.

(** Reading back a serialised list of entries gives the list. *)
Lemma splitlines_serialize l :
  Forall is_entry l -> Str.splitlines (serialize l) = l.
Proof.
  induction 1 as [|x l Hx _ IH]; [done|].
  rewrite serialize_cons, splitlines_line, IH; [done|].
  apply any_linebreak_isspace. by destruct Hx as (_ & _ & ? & _).
Qed.

(** [serialize] puts one line feed after each element. *)
Lemma serialize_concat l :
  serialize l = foldr (fun x acc => x +:+ newline +:+ acc) "" l.
Proof.
  induction l as [|x l IH]; [done|]. by rewrite serialize_cons, IH.
Qed.

Lemma splitlines_break1 c :
  Str.is_linebreak c = true -> Str.splitlines (String c "") = [""].
Proof. intros H. simpl. by rewrite H. Qed.

Lemma splitlines_break2 c c' r :
  Str.is_linebreak c = true ->
  Str.splitlines (String c (String c' r))
  = "" :: Str.splitlines (if (N_of_ascii c =? 13)%N && (N_of_ascii c' =? 10)%N
                          then r else String c' r).
Proof.
  intros H. simpl. rewrite H.
  by destruct ((N_of_ascii c =? 13)%N && (N_of_ascii c' =? 10)%N).
Qed.

Lemma splitlines_char c r :
  Str.is_linebreak c = false ->
  Str.splitlines (String c r)
  = match Str.splitlines r with
    | [] => [String c ""]
    | l :: ls => String c l :: ls
    end.
Proof. intros H. simpl. by rewrite H. Qed.

Lemma splitlines_break c r :
  Str.is_linebreak c = true -> (N_of_ascii c =? 13)%N = false ->
  Str.splitlines (String c r) = "" :: Str.splitlines r.
Proof.
  intros H Hc. destruct r as [|c' r'].
  - by rewrite splitlines_break1.
  - by rewrite splitlines_break2, Hc.
Qed.

Lemma linebreak_cr c : (N_of_ascii c =? 13)%N = true -> Str.is_linebreak c = true.
Proof.
  intros H%N.eqb_eq. unfold Str.is_linebreak. by rewrite H.
Qed.

(** Reading in text mode does not change the lines: [splitlines] cuts
    at a carriage return as it does at the line feed it is read as. *)
Lemma splitlines_universal_aux n :
  ∀ s, String.length s = n ->
       Str.splitlines (Str.universal_newlines s) = Str.splitlines s.
Proof.
  induction n as [n IH] using lt_wf_ind. intros s Hn.
  destruct s as [|c rest]; [done|]. cbn [Str.universal_newlines].
  destruct (N_of_ascii c =? 13)%N eqn:Hcr.
  - pose proof (linebreak_cr _ Hcr) as Hc.
    destruct rest as [|c' rest'].
    + by rewrite (splitlines_break1 _ Hc).
    + rewrite (splitlines_break2 _ _ _ Hc), Hcr. simpl andb.
      destruct (N_of_ascii c' =? 10)%N.
      * rewrite (splitlines_break "010") by done.
        by rewrite (IH (String.length rest') ltac:(simpl in Hn; lia)).
      * rewrite (splitlines_break "010") by done.
        by rewrite (IH (String.length (String c' rest'))
                      ltac:(simpl in Hn; simpl; lia)).
  - destruct (Str.is_linebreak c) eqn:Hc.
    + rewrite !(splitlines_break _ _ Hc Hcr).
      by rewrite (IH (String.length rest) ltac:(simpl in Hn; lia)).
    + rewrite !(splitlines_char _ _ Hc).
      by rewrite (IH (String.length rest) ltac:(simpl in Hn; lia)).
Qed.

Lemma splitlines_universal s :
  Str.splitlines (Str.universal_newlines s) = Str.splitlines s.
Proof. by apply (splitlines_universal_aux (String.length s)). Qed.

(** A text without carriage return is read as it is. *)
Lemma universal_newlines_id s :
  Str.any (fun c => (N_of_ascii c =? 13)%N) s = false ->
  Str.universal_newlines s = s.
Proof.
  induction s as [|c s IH]; [done|]. simpl. intros [Hc Hs]%orb_false_elim.
  by rewrite Hc, (IH Hs).
Qed.

Lemma any_weaken (p q : ascii -> bool) s :
  (∀ c, p c = true -> q c = true) -> Str.any q s = false -> Str.any p s = false.
Proof.
  intros Hpq. induction s as [|c s IH]; [done|]. simpl.
  intros [Hc Hs]%orb_false_elim. rewrite (IH Hs), orb_false_r.
  destruct (p c) eqn:E; [|done]. apply Hpq in E. congruence.
Qed.

Lemma any_append p s t : Str.any p (s +:+ t) = Str.any p s || Str.any p t.
Proof.
  induction s as [|c s IH]; [done|].
  change (String c s +:+ t) with (String c (s +:+ t)). simpl.
  by rewrite IH, orb_assoc.
Qed.

(** The serialisation of lines without line boundary is read as it is. *)
Lemma universal_newlines_serialize l :
  Forall (fun s => Str.any Str.is_linebreak s = false) l ->
  Str.universal_newlines (serialize l) = serialize l.
Proof.
  intros Hl. apply universal_newlines_id.
  induction Hl as [|x l Hx _ IH]; [done|].
  rewrite serialize_cons, !any_append, IH.
  change (Str.any _ newline) with false. rewrite !orb_false_r.
  eapply any_weaken; [|exact Hx]. apply linebreak_cr.
Qed.

Lemma entries_no_linebreak l :
  Forall is_entry l -> Forall (fun s => Str.any Str.is_linebreak s = false) l.
Proof.
  intros H. eapply Forall_impl; [exact H|].
  intros s (_ & _ & Hs & _). by apply any_linebreak_isspace.
Qed.

Lemma entries_of_universal text :
  entries_of (Str.universal_newlines text) = entries_of text.
Proof. unfold entries_of. by rewrite splitlines_universal. Qed.

(** ** Entry normalisation *)

Lemma normalize_rule_name_Some raw s :
  normalize_rule_name raw = Some s <-> s = Str.strip raw ∧ is_entry s.
Proof.
  unfold normalize_rule_name, is_entry.
  generalize (Str.strip raw). intros t.
  destruct (bool_decide_reflect (t = "")) as [->|Hne]; simpl.
  { split; [done|]. intros (-> & ? & _). done. }
  destruct (Str.startswith t "#") eqn:E1; simpl.
  { split; [done|]. intros (-> & _ & ? & _). congruence. }
  destruct (Str.any Str.isspace t) eqn:E2.
  { split; [done|]. intros (-> & _ & _ & ? & _). congruence. }
  destruct (Str.startswith t ".") eqn:E3; simpl.
  { split; [done|]. intros (-> & _ & _ & _ & ? & _). congruence. }
  destruct (Str.startswith t "_") eqn:E4; simpl.
  { split; [done|]. intros (-> & _ & _ & _ & _ & ?). congruence. }
  split; [intros [= <-]; done | intros [-> _]; done].
Qed.

Lemma normalize_rule_name_None raw :
  normalize_rule_name raw = None <-> ¬ is_entry (Str.strip raw).
Proof.
  destruct (normalize_rule_name raw) as [s|] eqn:E.
  - apply normalize_rule_name_Some in E as [-> ?]. split; [done|]. tauto.
  - split; [|done]. intros _ H.
    assert (normalize_rule_name raw = Some (Str.strip raw)) as E'
      by (by apply normalize_rule_name_Some).
    congruence.
Qed.

(** The state of the reading loop after [pre]: no line was reported as
    dropped, [seen] holds the rules, and the rules are the entries among
    the trimmed lines, each once. *)
Lemma read_ruleset_inv pre :
  let r := foldl read_ruleset_step (Reader [] [] ∅) pre in
  dropped r = []
  ∧ (∀ x, x ∈ seen r <-> x ∈ rules r)
  ∧ (∀ x, x ∈ rules r <-> is_entry x ∧ x ∈ Str.strip <$> pre)
  ∧ NoDup (rules r).
Proof.
  induction pre as [|line pre IH] using rev_ind.
  { simpl. split_and!; [done|set_solver| |constructor].
    intros x. set_solver. }
  rewrite foldl_snoc. cbv zeta in *. destruct IH as (Hd & Hs & Hr & Hn).
  set (r := foldl read_ruleset_step (Reader [] [] ∅) pre) in *.
  unfold read_ruleset_step. rewrite fmap_app. simpl.
  destruct (normalize_rule_name line) as [name|] eqn:E.
  - apply normalize_rule_name_Some in E as [-> He].
    destruct (bool_decide_reflect (Str.strip line ∈ seen r)) as [Hin|Hin].
    + split_and!; [done..| |done]. intros x. rewrite Hr.
      rewrite elem_of_app, list_elem_of_singleton.
      apply Hs, Hr in Hin. naive_solver.
    + simpl. split_and!; [done| | |].
      * intros x. rewrite elem_of_union, elem_of_singleton, elem_of_app,
          list_elem_of_singleton, Hs. tauto.
      * intros x. rewrite !elem_of_app, !list_elem_of_singleton, Hr. naive_solver.
      * apply NoDup_app. split_and!; [done| |apply NoDup_singleton].
        intros x Hx ->%list_elem_of_singleton. by apply Hin, Hs.
  - apply normalize_rule_name_None in E. split_and!; [done..| |done].
    intros x. rewrite Hr, elem_of_app, list_elem_of_singleton. naive_solver.
Qed.

(** The reading loop, one more line at the end. *)
Lemma read_ruleset_lines_snoc pre line :
  read_ruleset_lines (pre ++ [line])
  = ((read_ruleset_lines pre).1
       ++ (if decide (is_entry (Str.strip line)
                      ∧ Str.strip line ∉ Str.strip <$> pre)
           then [Str.strip line] else []),
     []).
Proof.
  pose proof (read_ruleset_inv (pre ++ [line])) as (Hd' & _).
  pose proof (read_ruleset_inv pre) as (Hd & Hs & Hr & Hn).
  cbv zeta in *. unfold read_ruleset_lines. rewrite Hd'. f_equal.
  rewrite foldl_snoc. simpl.
  set (r := foldl read_ruleset_step (Reader [] [] ∅) pre) in *.
  unfold read_ruleset_step.
  destruct (normalize_rule_name line) as [name|] eqn:E.
  - apply normalize_rule_name_Some in E as [-> He].
    destruct (bool_decide_reflect (Str.strip line ∈ seen r)) as [Hin|Hin].
    + rewrite decide_False; [by rewrite app_nil_r|].
      intros [_ Hn']. apply Hn'. by apply Hs, Hr in Hin as [_ ?].
    + rewrite decide_True; [done|]. split; [done|].
      intros Hin'. apply Hin, Hs, Hr. done.
  - apply normalize_rule_name_None in E.
    rewrite decide_False; [by rewrite app_nil_r|]. tauto.
Qed.

(** The entries of a text are entries, each once. *)
Lemma entries_of_spec text :
  Forall is_entry (entries_of text) ∧ NoDup (entries_of text).
Proof.
  pose proof (read_ruleset_inv (Str.splitlines text)) as (_ & _ & Hr & Hn).
  split; [|done]. apply Forall_forall. intros x Hx. by apply Hr in Hx as [? _].
Qed.

(** Distinct entries are read as they are. *)
Lemma read_ruleset_lines_entries l :
  Forall is_entry l -> NoDup l -> read_ruleset_lines l = (l, []).
Proof.
  induction l as [|x l IH] using rev_ind; [done|].
  intros [Hl Hx]%Forall_app [Hn [Hd _]]%NoDup_app.
  rewrite Forall_singleton in Hx.
  rewrite read_ruleset_lines_snoc, (IH Hl Hn), (strip_entry _ Hx). simpl.
  rewrite decide_True; [done|]. split; [done|].
  intros (y & Hy & Hin)%list_elem_of_fmap.
  assert (is_entry y) as Hey by (by eapply Forall_forall in Hl).
  rewrite (strip_entry _ Hey) in Hy. subst y.
  apply (Hd x Hin). by apply list_elem_of_singleton.
Qed.

Lemma entries_of_serialize l :
  Forall is_entry l -> NoDup l -> entries_of (serialize l) = l.
Proof.
  intros He Hn. unfold entries_of.
  by rewrite (splitlines_serialize _ He), (read_ruleset_lines_entries _ He Hn).
Qed.

Lemma serialize_nil_iff l : l = [] <-> serialize l = "".
Proof.
  split; [by intros ->|]. destruct l as [|x l]; [done|].
  rewrite serialize_cons. by destruct x.
Qed.

Lemma filter_all {A} (P : A -> Prop) `{∀ x, Decision (P x)} l :
  Forall P l -> filter P l = l.
Proof.
  induction 1 as [|x l Hx _ IH]; [done|].
  by rewrite filter_cons, decide_True, IH.
Qed.

Lemma filter_none {A} (P : A -> Prop) `{∀ x, Decision (P x)} l :
  Forall P l -> filter (fun x => ¬ P x) l = [].
Proof.
  induction 1 as [|x l Hx _ IH]; [done|].
  rewrite filter_cons, decide_False, IH; [done|]. by intros Hn.
Qed.

(** C7: normalisation is a total function of the raw lines that reports
    no dropped line; it takes the lines in order and appends the trimmed
    line exactly when it is an entry (not empty, not starting with the
    comment marker, a dot or an underscore, without whitespace) that has
    not occurred among the earlier trimmed lines. *)
Theorem read_ruleset_lines_first_occurrence (pre : list string) (line : string) :
  let t := Str.strip line in
  read_ruleset_lines [] = ([], [])
  ∧ read_ruleset_lines (pre ++ [line]) =
      ((read_ruleset_lines pre).1
         ++ (if decide (is_entry t ∧ t ∉ Str.strip <$> pre) then [t] else []),
       [])
  ∧ (is_entry t <->
     t ≠ "" ∧ Str.startswith t "#" = false ∧ Str.any Str.isspace t = false
     ∧ Str.startswith t "." = false ∧ Str.startswith t "_" = false)
  ∧ NoDup (read_ruleset_lines (pre ++ [line])).1.
Proof.
  cbv zeta. split_and!; [done|apply read_ruleset_lines_snoc|done|].
  apply read_ruleset_inv.
Qed.

(** ** The monad *)

Lemma after_nil w : after w [] = w.
Proof. destruct w. unfold after. simpl. by rewrite app_nil_r. Qed.

Lemma after_after w l l' : after (after w l) l' = after w (l ++ l').
Proof. unfold after. simpl. by rewrite app_assoc. Qed.

Lemma traced_intro {A} (m : M A) r l :
  (∀ w, m w = (r, after w l)) -> traced m ∧ outcome m = r ∧ trace m = l.
Proof.
  intros H. assert (outcome m = r ∧ trace m = l) as [Ho Ht].
  { unfold outcome, trace. rewrite (H blank). done. }
  split; [|done]. intros w. by rewrite Ho, Ht.
Qed.

Lemma traced_ret {A} (a : A) : traced (ret a).
Proof. apply (traced_intro _ (Ok a) []). intros w. by rewrite after_nil. Qed.

Lemma traced_raise {A} e : traced (@raise A e).
Proof. apply (traced_intro _ (Raise e) []). intros w. by rewrite after_nil. Qed.

Lemma traced_out_of_fuel {A} : traced (@out_of_fuel A).
Proof. apply (traced_intro _ OutOfFuel []). intros w. by rewrite after_nil. Qed.

Lemma bind_run {A B} (m : M A) (k : A -> M B) :
  traced m -> (∀ a, traced (k a)) ->
  ∀ w, bind m k w =
       match outcome m with
       | Ok a => (outcome (k a), after w (trace m ++ trace (k a)))
       | Raise e => (Raise e, after w (trace m))
       | OutOfFuel => (OutOfFuel, after w (trace m))
       end.
Proof.
  intros Hm Hk w. unfold bind. rewrite (Hm w).
  destruct (outcome m) as [a| |]; [|done..].
  by rewrite (Hk a), after_after.
Qed.

Lemma traced_bind {A B} (m : M A) (k : A -> M B) :
  traced m -> (∀ a, traced (k a)) -> traced (bind m k).
Proof.
  intros Hm Hk. pose proof (bind_run m k Hm Hk) as H.
  destruct (outcome m) as [a| |]; eapply traced_intro; exact H.
Qed.

Lemma outcome_bind {A B} (m : M A) (k : A -> M B) :
  traced m -> (∀ a, traced (k a)) ->
  outcome (bind m k) =
    match outcome m with
    | Ok a => outcome (k a)
    | Raise e => Raise e
    | OutOfFuel => OutOfFuel
    end.
Proof.
  intros Hm Hk. unfold outcome at 1. rewrite (bind_run m k Hm Hk).
  by destruct (outcome m).
Qed.

Lemma trace_bind {A B} (m : M A) (k : A -> M B) :
  traced m -> (∀ a, traced (k a)) ->
  trace (bind m k) =
    trace m ++ match outcome m with Ok a => trace (k a) | _ => [] end.
Proof.
  intros Hm Hk. unfold trace at 1. rewrite (bind_run m k Hm Hk).
  destruct (outcome m); simpl; by rewrite ?app_nil_r.
Qed.

Lemma traced_try_except {A} (m : M A) (h : exn -> M A) :
  traced m -> (∀ e, traced (h e)) -> traced (try_except m h).
Proof.
  intros Hm Hh.
  assert (∀ w, try_except m h w =
               match outcome m with
               | Raise e => (outcome (h e), after w (trace m ++ trace (h e)))
               | r => (r, after w (trace m))
               end) as H.
  { intros w. unfold try_except. rewrite (Hm w).
    destruct (outcome m) as [a|e|]; [done| |done].
    by rewrite (Hh e), after_after. }
  destruct (outcome m) as [a|e|]; eapply traced_intro; exact H.
Qed.

Create HintDb traced.
#[local] Hint Resolve traced_ret traced_raise traced_out_of_fuel : traced.

(** ** The remote validator *)

Section ValidatorProps.

Context (service : string -> string -> response) (fuel : nat) (token : string).

Lemma request_run url w :
  _request_json service url token w = (answer service token url, after w [url]).
Proof. unfold _request_json, answer. by destruct (service token url). Qed.

Lemma traced_request url : traced (_request_json service url token).
Proof. eapply traced_intro, request_run. Qed.

Lemma traced_tag_body item : traced (tag_body item).
Proof.
  unfold tag_body. destruct item as [| | | | | |d]; auto with traced.
  destruct (d !! "name") as [[| | | |name| |]|]; auto with traced.
  case_bool_decide; auto with traced.
Qed.

Lemma traced_yield_each {R} items (body : json -> M (option R)) :
  (∀ item, traced (body item)) -> traced (yield_each items body).
Proof.
  intros Hb. induction items as [|item items IH]; simpl; [auto with traced|].
  apply traced_bind; [done|]. intros [x|]; auto with traced.
Qed.

Lemma traced_paginate {R} n url (body : json -> M (option R)) :
  (∀ item, traced (body item)) -> traced (_paginate service n url token body).
Proof.
  intros Hb. revert url. induction n as [|n IH]; intros url; simpl; [auto with traced|].
  destruct url as [u|]; [|auto with traced].
  case_bool_decide; [auto with traced|].
  apply traced_bind; [apply traced_request|]. intros [data headers].
  destruct data; auto with traced.
  apply traced_bind; [by apply traced_yield_each|]. intros [x|]; auto with traced.
Qed.

Lemma traced_repo_has_required_tag repo :
  traced (repo_has_required_tag service fuel repo token).
Proof.
  unfold repo_has_required_tag. apply traced_bind.
  - apply traced_paginate, traced_tag_body.
  - intros [b|]; auto with traced.
Qed.

Lemma repo_exists_run repo w :
  repo_exists service repo token w
  = (existence service token repo, after w [repo_url repo]).
Proof.
  unfold repo_exists, existence, found_active, bind, try_except.
  rewrite request_run. unfold answer.
  destruct (service token (repo_url repo)) as [data headers|code body|name]; simpl.
  - destruct data as [| | | | | |d]; try done.
    destruct (d !! "archived") as [[|[]| | | | |]|]; try done;
      destruct (d !! "fork") as [[|[]| | | | |]|]; done.
  - destruct (code =? 404)%Z; reflexivity.
  - reflexivity.
Qed.

Lemma traced_repo_exists repo : traced (repo_exists service repo token).
Proof. eapply traced_intro, repo_exists_run. Qed.

Lemma traced_is_eligible rule : traced (is_eligible service fuel token rule).
Proof.
  unfold is_eligible. apply traced_bind; [apply traced_repo_exists|].
  intros []; simpl; [apply traced_repo_has_required_tag | auto with traced].
Qed.

Lemma existence_true rule :
  existence service token rule = Ok true <-> found_active service token rule = true.
Proof.
  unfold existence, found_active.
  destruct (service token (repo_url rule)) as [data headers|code body|name].
  - split; [by intros [= ->] | by intros ->].
  - destruct (code =? 404)%Z; split; done.
  - split; done.
Qed.

Lemma yield_tags items w :
  Forall is_object items ->
  yield_each items tag_body w
  = (Ok (if existsb is_marker items then Some true else None), w).
Proof.
  induction 1 as [|item items Hi _ IH]; [done|].
  destruct item as [| | | | | |d]; try done. simpl. unfold bind, tag_body.
  destruct (d !! "name") as [[| | | |name| |]|]; simpl; try apply IH.
  case_bool_decide; simpl; [done|apply IH].
Qed.

Lemma yield_not_object before item rest w :
  Forall is_object before -> existsb is_marker before = false ->
  ¬ is_object item ->
  yield_each (before ++ item :: rest) tag_body w
  = (Raise (AttributeError ("'" +:+ type_name item
                            +:+ "' object has no attribute 'get'")), w).
Proof.
  intros Hb Hm Hi. induction Hb as [|x before Hx _ IH]; simpl.
  - unfold bind. destruct item; done.
  - simpl in Hm. apply orb_false_elim in Hm as [Hx' Hm].
    destruct x as [| | | | | |d]; try done. unfold bind, tag_body.
    simpl in Hx'. destruct (d !! "name") as [[| | | |name| |]|]; simpl; try by apply IH.
    rewrite Hx'. simpl. by apply IH.
Qed.

(** The scan over the pages of a listing: it stops at the first page
    that holds the marker, and goes on from the pointer of the last page
    otherwise. *)
Lemma paginate_scan start pages stop :
  listing service token start pages stop ->
  Forall (fun p => Forall is_object p.2) pages ->
  ∀ n w,
    _paginate service (length pages + n) start token tag_body w
    = if holds_marker pages then (Ok (Some true), after w (scanned pages))
      else _paginate service n stop token tag_body (after w (scanned pages)).
Proof.
  induction 1 as [stop|u items headers pages stop Hu Hs _ IH]; intros Hobj n w.
  { simpl. by rewrite after_nil. }
  apply Forall_cons in Hobj as [Hi Hobj]. simpl in Hi.
  cbn [length Nat.add _paginate]. rewrite bool_decide_false by done.
  unfold bind at 1. rewrite request_run. unfold answer. rewrite Hs.
  unfold bind at 1. rewrite (yield_tags _ _ Hi). cbn [holds_marker existsb scanned snd].
  destruct (existsb is_marker items); simpl; [done|].
  rewrite (IH Hobj). fold (holds_marker pages).
  destruct (holds_marker pages); by rewrite after_after.
Qed.

Lemma sync_loop_cons rule rules' kept removed w :
  sync_loop service fuel (rule :: rules') token kept removed w
  = bind (is_eligible service fuel token rule)
      (fun b => sync_loop service fuel rules' token
                  (if b then kept ++ [rule] else kept)
                  (if b then removed else removed ++ [rule])) w.
Proof.
  cbn [sync_loop]. unfold is_eligible, bind.
  destruct (repo_exists service rule token w) as [[[]| |] w1]; simpl; try done.
  destruct (repo_has_required_tag service fuel rule token w1) as [[[]| |] w2]; done.
Qed.

Lemma is_eligible_run rule w :
  is_eligible service fuel token rule w
  = (verdict service fuel token rule, after w (entry_trace service fuel token rule)).
Proof. apply traced_is_eligible. Qed.

Lemma verdict_unfold rule :
  verdict service fuel token rule
  = match existence service token rule with
    | Ok true => outcome (repo_has_required_tag service fuel rule token)
    | r => r
    end.
Proof.
  unfold verdict, is_eligible. rewrite outcome_bind.
  - unfold outcome at 1. rewrite repo_exists_run. simpl.
    by destruct (existence service token rule) as [[]| |].
  - apply traced_repo_exists.
  - intros []; simpl; [apply traced_repo_has_required_tag | auto with traced].
Qed.

Lemma entry_trace_unfold rule :
  entry_trace service fuel token rule
  = repo_url rule ::
    match existence service token rule with
    | Ok true => trace (repo_has_required_tag service fuel rule token)
    | _ => []
    end.
Proof.
  unfold entry_trace, is_eligible. rewrite trace_bind.
  - unfold trace at 1, outcome at 1. rewrite repo_exists_run. simpl.
    by destruct (existence service token rule) as [[]| |].
  - apply traced_repo_exists.
  - intros []; simpl; [apply traced_repo_has_required_tag | auto with traced].
Qed.

(** One turn of the loop of [_paginate] at a URL. *)
Lemma paginate_step {R} n u (body : json -> M (option R)) w :
  u ≠ "" ->
  _paginate service (S n) (Some u) token body w
  = match answer service token u with
    | Ok (JList items, headers) =>
        bind (yield_each items body)
          (fun r => match r with
                    | Some x => ret (Some x)
                    | None => _paginate service n (next_url_of headers) token body
                    end) (after w [u])
    | Ok (data, _) =>
        (Raise (RuntimeError ("Expected list response for " +:+ u
                              +:+ ", got " +:+ type_repr data)), after w [u])
    | Raise e => (Raise e, after w [u])
    | OutOfFuel => (OutOfFuel, after w [u])
    end.
Proof.
  intros Hu. cbn [_paginate]. rewrite bool_decide_false by done.
  unfold bind at 1. rewrite request_run.
  destruct (answer service token u) as [[data headers]| |]; [|done..].
  by destruct data.
Qed.

Lemma tag_check_run repo w :
  repo_has_required_tag service fuel repo token w
  = match _paginate service fuel (Some (tags_url repo)) token tag_body w with
    | (Ok (Some b), w') => (Ok b, w')
    | (Ok None, w') => (Ok false, w')
    | (Raise e, w') => (Raise e, w')
    | (OutOfFuel, w') => (OutOfFuel, w')
    end.
Proof.
  unfold repo_has_required_tag, bind.
  by destruct (_paginate service fuel (Some (tags_url repo)) token tag_body w)
    as [[[b|]| |] w'].
Qed.

(** The tag check over a whole listing. *)
Lemma tag_check_listing repo pages w :
  listing service token (Some (tags_url repo)) pages None ->
  Forall (fun p => Forall is_object p.2) pages ->
  length pages < fuel ->
  repo_has_required_tag service fuel repo token w
  = (Ok (holds_marker pages), after w (scanned pages)).
Proof.
  intros Hl Hobj Hfuel. rewrite tag_check_run.
  replace fuel with (length pages + S (fuel - S (length pages))) by lia.
  rewrite (paginate_scan _ _ _ Hl Hobj). by destruct (holds_marker pages).
Qed.

(** The tag check when the page after [pages] fails with [e]. *)
Lemma tag_check_fails repo pages u e w :
  listing service token (Some (tags_url repo)) pages (Some u) ->
  unmarked pages -> u ≠ "" -> length pages < fuel ->
  (∀ n w, _paginate service (S n) (Some u) token tag_body w = (Raise e, after w [u])) ->
  repo_has_required_tag service fuel repo token w
  = (Raise e, after w (scanned pages ++ [u])).
Proof.
  intros Hl [Hobj Hm] Hu Hfuel He. rewrite tag_check_run.
  replace fuel with (length pages + S (fuel - S (length pages))) by lia.
  rewrite (paginate_scan _ _ _ Hl Hobj), Hm, He. by rewrite after_after.
Qed.

Lemma remote_failure_verdict rule n e :
  remote_failure service token rule n e -> n < fuel ->
  verdict service fuel token rule = Raise e.
Proof.
  intros Hf Hfuel. rewrite verdict_unfold.
  assert (∀ pages u,
    found_active service token rule = true ->
    listing service token (Some (tags_url rule)) pages (Some u) ->
    unmarked pages -> u ≠ "" -> length pages < fuel ->
    (∀ n w, _paginate service (S n) (Some u) token tag_body w
            = (Raise e, after w [u])) ->
    match existence service token rule with
    | Ok true => outcome (repo_has_required_tag service fuel rule token)
    | r => r
    end = Raise e) as Htags.
  { intros pages u Hfa Hl Hun Hu Hlen He.
    apply existence_true in Hfa as ->. unfold outcome.
    by rewrite (tag_check_fails _ _ _ _ _ Hl Hun Hu Hlen He). }
  destruct Hf as [code body Hs Hc|name Hs
                 |pages u code body Hfa Hl Hun Hu Hs
                 |pages u name Hfa Hl Hun Hu Hs
                 |pages u data headers Hfa Hl Hun Hu Hs Hd
                 |pages u before item rest headers Hfa Hl Hun Hu Hs Hb Hm Hi].
  - unfold existence. rewrite Hs. apply Z.eqb_neq in Hc as ->. done.
  - unfold existence. by rewrite Hs.
  - apply (Htags pages u); try done. intros k w.
    rewrite paginate_step by done. unfold answer. by rewrite Hs.
  - apply (Htags pages u); try done. intros k w.
    rewrite paginate_step by done. unfold answer. by rewrite Hs.
  - apply (Htags pages u); try done. intros k w.
    rewrite paginate_step by done. unfold answer. rewrite Hs.
    destruct data; try done. by destruct (Hd items).
  - apply (Htags pages u); try done. intros k w.
    rewrite paginate_step by done. unfold answer. rewrite Hs.
    unfold bind. by rewrite (yield_not_object _ _ _ _ Hb Hm Hi).
Qed.

(** The loop of [sync_ruleset] over entries that all get a verdict. *)
Lemma sync_loop_app pre rest kept removed w :
  Forall (has_verdict service fuel token) pre ->
  sync_loop service fuel (pre ++ rest) token kept removed w
  = sync_loop service fuel rest token
      (kept ++ filter (eligible service fuel token) pre)
      (removed ++ filter (fun r => ¬ eligible service fuel token r) pre)
      (after w (concat (entry_trace service fuel token <$> pre))).
Proof.
  intros Hpre. revert kept removed w.
  induction Hpre as [|rule pre [b Hb] _ IH]; intros kept removed w.
  { simpl. by rewrite !app_nil_r, after_nil. }
  rewrite <- app_comm_cons, sync_loop_cons. unfold bind.
  rewrite is_eligible_run, Hb, IH. rewrite after_after.
  rewrite !filter_cons. simpl. destruct b.
  - rewrite decide_True by done.
    rewrite decide_False by (intros H; by apply H).
    by rewrite <- app_assoc.
  - rewrite decide_False by (unfold eligible; congruence).
    rewrite decide_True by (unfold eligible; congruence).
    by rewrite <- app_assoc.
Qed.

Lemma sync_loop_run rules kept removed w :
  Forall (has_verdict service fuel token) rules ->
  sync_loop service fuel rules token kept removed w
  = (Ok (kept ++ filter (eligible service fuel token) rules,
         removed ++ filter (fun r => ¬ eligible service fuel token r) rules),
     after w (concat (entry_trace service fuel token <$> rules))).
Proof.
  intros H. rewrite <- (app_nil_r rules) at 1. by rewrite sync_loop_app.
Qed.

Lemma sync_loop_raise pre rule post e kept removed w :
  Forall (has_verdict service fuel token) pre ->
  verdict service fuel token rule = Raise e ->
  sync_loop service fuel (pre ++ rule :: post) token kept removed w
  = (Raise e, after w (concat (entry_trace service fuel token <$> pre)
                       ++ entry_trace service fuel token rule)).
Proof.
  intros Hpre He. rewrite sync_loop_app by done. rewrite sync_loop_cons.
  unfold bind. by rewrite is_eligible_run, He, after_after.
Qed.

(** A loop that returns has met a verdict for every entry. *)
Lemma sync_loop_Ok rules kept removed w x w' :
  sync_loop service fuel rules token kept removed w = (Ok x, w') ->
  Forall (has_verdict service fuel token) rules.
Proof.
  revert kept removed w. induction rules as [|rule rules IH]; intros kept removed w H.
  { constructor. }
  rewrite sync_loop_cons in H. unfold bind in H. rewrite is_eligible_run in H.
  destruct (verdict service fuel token rule) as [b| |] eqn:Hv; [|done..].
  constructor; [by exists b | by eapply IH].
Qed.

End ValidatorProps.

(** ** The reconciler *)

Section ReconcilerProps.

Context (service : string -> string -> response) (fuel : nat) (token : string).

Lemma traced_sync_loop rules kept removed :
  traced (sync_loop service fuel rules token kept removed).
Proof.
  revert kept removed. induction rules as [|rule rules IH]; intros kept removed.
  { apply traced_ret. }
  cbn [sync_loop]. apply traced_bind; [apply traced_repo_exists|].
  intros []; simpl; [|apply IH].
  apply traced_bind; [apply traced_repo_has_required_tag|].
  intros []; simpl; apply IH.
Qed.

Lemma read_ruleset_file_run path text w :
  files w !! path = Some text ->
  read_ruleset_file path w = (Ok (read_ruleset_lines (Str.splitlines text)), w).
Proof.
  intros H. unfold read_ruleset_file, bind, read_text.
  by rewrite H, splitlines_universal.
Qed.

(** [sync_ruleset], step by step. *)
Lemma sync_ruleset_unfold path check_only w :
  sync_ruleset service fuel path token check_only w
  = match files w !! path with
    | None => (Raise (FileNotFoundError path), w)
    | Some text =>
        let loop := sync_loop service fuel (entries_of text) token [] [] in
        let w1 := after w (trace loop) in
        match outcome loop with
        | Ok (kept, removed) =>
            let changed :=
              negb (bool_decide (serialize kept = Str.universal_newlines text)) in
            (Ok (changed, removed),
             if changed && negb check_only
             then set_file path (serialize kept) w1 else w1)
        | Raise e => (Raise e, w1)
        | OutOfFuel => (OutOfFuel, w1)
        end
    end.
Proof.
  unfold sync_ruleset, bind at 1, read_ruleset_file, bind at 1, read_text.
  destruct (files w !! path) as [text|] eqn:Hf; [|done].
  unfold ret at 1, entries_of. rewrite splitlines_universal.
  destruct (read_ruleset_lines (Str.splitlines text)) as [rules dropped].
  cbn [fst]. cbv zeta. unfold bind at 1. rewrite (traced_sync_loop rules [] [] w).
  destruct (outcome _) as [[kept removed]| |]; [|done..].
  unfold bind, read_text. cbn [files after]. rewrite Hf.
  fold (serialize kept). by destruct (negb _ && negb check_only).
Qed.

(** A reconciliation whose entries all get a verdict. *)
Lemma sync_ruleset_run path check_only text w :
  files w !! path = Some text ->
  Forall (has_verdict service fuel token) (entries_of text) ->
  let kept := filter (eligible service fuel token) (entries_of text) in
  let removed := filter (fun r => ¬ eligible service fuel token r) (entries_of text) in
  let changed := negb (bool_decide (serialize kept = Str.universal_newlines text)) in
  let w1 := after w (concat (entry_trace service fuel token <$> entries_of text)) in
  sync_ruleset service fuel path token check_only w
  = (Ok (changed, removed),
     if changed && negb check_only then set_file path (serialize kept) w1 else w1).
Proof.
  intros Hf Hv. cbv zeta. rewrite sync_ruleset_unfold, Hf. cbv zeta.
  unfold outcome, trace. by rewrite (sync_loop_run _ _ _ _ _ _ _ Hv).
Qed.

(** A reconciliation that meets an exception at an entry. *)
Lemma sync_ruleset_raise path check_only text pre rule post e w :
  files w !! path = Some text ->
  entries_of text = pre ++ rule :: post ->
  Forall (has_verdict service fuel token) pre ->
  verdict service fuel token rule = Raise e ->
  sync_ruleset service fuel path token check_only w
  = (Raise e, after w (concat (entry_trace service fuel token <$> pre)
                       ++ entry_trace service fuel token rule)).
Proof.
  intros Hf He Hv Hr. rewrite sync_ruleset_unfold, Hf. cbv zeta.
  unfold outcome, trace. by rewrite He, (sync_loop_raise _ _ _ _ _ _ _ _ _ _ Hv Hr).
Qed.

(** A reconciliation that returns has read the file and met a verdict
    for every entry. *)
Lemma sync_ruleset_Ok path check_only w r w' :
  sync_ruleset service fuel path token check_only w = (Ok r, w') ->
  ∃ text, files w !! path = Some text
          ∧ Forall (has_verdict service fuel token) (entries_of text).
Proof.
  rewrite sync_ruleset_unfold.
  destruct (files w !! path) as [text|] eqn:Hf; [|done]. cbv zeta.
  intros H. exists text. split; [done|].
  destruct (outcome _) as [x| |] eqn:Hl; [|done..].
  unfold outcome in Hl. apply (sync_loop_Ok _ _ _ _ [] [] blank x
    (sync_loop service fuel (entries_of text) token [] [] blank).2).
  rewrite <- Hl. by destruct (sync_loop _ _ _ _ _ _ _).
Qed.

(** In check mode a reconciliation writes no file, whatever it meets. *)
Lemma sync_ruleset_check_files path w :
  files (sync_ruleset service fuel path token true w).2 = files w.
Proof.
  rewrite sync_ruleset_unfold.
  destruct (files w !! path) as [text|]; [|done]. cbv zeta.
  destruct (outcome _) as [[kept removed]| |]; [|done..].
  by rewrite andb_false_r.
Qed.

Lemma sync_ruleset_stdout path check_only w :
  stdout (sync_ruleset service fuel path token check_only w).2 = stdout w.
Proof.
  rewrite sync_ruleset_unfold.
  destruct (files w !! path) as [text|]; [|done]. cbv zeta.
  destruct (outcome _) as [[kept removed]| |]; [|done..].
  by destruct (negb _ && negb check_only).
Qed.

End ReconcilerProps.

(** ** The claims on the remote validator *)

Lemma demo_r1_listing token :
  listing Demo.service token (Some (tags_url "r1")) Demo.r1_pages None.
Proof.
  unfold Demo.r1_pages.
  eapply (listing_cons _ _ _ _ (Demo.link_to Demo.page2)); [done|reflexivity|].
  change (next_url_of _) with (Some Demo.page2).
  eapply (listing_cons _ _ _ _ (Demo.link_to Demo.page3)); [done|reflexivity|].
  change (next_url_of _) with (Some Demo.page3).
  eapply (listing_cons _ _ _ _ []); [done|reflexivity|].
  apply listing_nil.
Defined.

Lemma demo_r1_objects : Forall (fun p => Forall is_object p.2) Demo.r1_pages.
Proof. repeat constructor. Defined.

(** C3: a 404 answer to the metadata request makes the existence check
    return false, and the loop goes on with the next entries, the entry
    being listed as removed; nothing is raised. *)
Theorem not_found_is_ineligible service fuel token rule body rules' kept removed w :
  service token (repo_url rule) = HTTPError 404 body ->
  repo_exists service rule token w = (Ok false, after w [repo_url rule])
  ∧ sync_loop service fuel (rule :: rules') token kept removed w
    = sync_loop service fuel rules' token kept (removed ++ [rule])
        (after w [repo_url rule]).
Proof.
  intros Hs.
  assert (repo_exists service rule token w = (Ok false, after w [repo_url rule])) as H.
  { rewrite repo_exists_run. unfold existence. by rewrite Hs. }
  split; [done|]. cbn [sync_loop]. unfold bind. by rewrite H.
Qed.

Lemma not_found_is_ineligible_witness :
  repo_exists Demo.service "r2" "secret" Demo.world0
  = (Ok false, after Demo.world0 [repo_url "r2"])
  ∧ sync_loop Demo.service 4 ["r2"; "r1"] "secret" ["r0"] [] Demo.world0
    = sync_loop Demo.service 4 ["r1"] "secret" ["r0"] ([] ++ ["r2"])
        (after Demo.world0 [repo_url "r2"]).
Proof.
  apply (not_found_is_ineligible Demo.service 4 "secret" "r2" None).
  reflexivity.
Defined.

(** C4: over a listing of tag objects that ends, the tag check returns
    whether some page holds an item whose trimmed name is the marker; it
    requests the pages in order up to the first that holds the marker,
    and all of them when none does. *)
Theorem tag_check_scans_pages service fuel token repo pages w :
  listing service token (Some (tags_url repo)) pages None ->
  Forall (fun p => Forall is_object p.2) pages ->
  length pages < fuel ->
  repo_has_required_tag service fuel repo token w
  = (Ok (holds_marker pages), after w (scanned pages))
  ∧ (holds_marker pages = true
     <-> ∃ p item, p ∈ pages ∧ item ∈ p.2 ∧ is_marker item = true)
  ∧ (holds_marker pages = false -> scanned pages = pages.*1)
  ∧ (∀ pre p post, pages = pre ++ p :: post -> holds_marker pre = false ->
       existsb is_marker p.2 = true -> scanned pages = pre.*1 ++ [p.1]).
Proof.
  intros Hl Hobj Hfuel. split; [by apply tag_check_listing|]. clear.
  split; [|split].
  - unfold holds_marker. rewrite existsb_exists. split.
    + intros (p & Hp & Hi). apply existsb_exists in Hi as (item & Hi & Hm).
      exists p, item. by rewrite <- !list_elem_of_In in *.
    + intros (p & item & Hp & Hi & Hm). exists p.
      rewrite <- list_elem_of_In. split; [done|]. apply existsb_exists.
      exists item. by rewrite <- list_elem_of_In.
  - induction pages as [|[u items] pages IH]; [done|]. cbn.
    intros [Hi Hp]%orb_false_elim. by rewrite Hi, (IH Hp).
  - intros pre p post -> Hpre Hp. induction pre as [|[u items] pre IH].
    + destruct p as [u items]. simpl in *. by rewrite Hp.
    + cbn in Hpre. apply orb_false_elim in Hpre as [Hi Hpre].
      cbn. rewrite Hi. f_equal. by apply IH.
Qed.

Lemma tag_check_scans_pages_witness :
  repo_has_required_tag Demo.service 4 "r1" "secret" Demo.world0
  = (Ok (holds_marker Demo.r1_pages), after Demo.world0 (scanned Demo.r1_pages))
  ∧ (holds_marker Demo.r1_pages = true
     <-> ∃ p item, p ∈ Demo.r1_pages ∧ item ∈ p.2 ∧ is_marker item = true)
  ∧ (holds_marker Demo.r1_pages = false -> scanned Demo.r1_pages = Demo.r1_pages.*1)
  ∧ (∀ pre p post, Demo.r1_pages = pre ++ p :: post -> holds_marker pre = false ->
       existsb is_marker p.2 = true -> scanned Demo.r1_pages = pre.*1 ++ [p.1]).
Proof.
  apply (tag_check_scans_pages Demo.service 4 "secret" "r1" Demo.r1_pages).
  - apply demo_r1_listing.
  - apply demo_r1_objects.
  - simpl. lia.
Defined.

(** C2: the existence check returns true exactly when the metadata is
    found and is neither archived nor a fork.  When it returns false the
    entry is removed and the loop goes on from the world left by the one
    metadata request: the tag check is not run.  When it returns true
    the tag check decides.  Over a listing that ends, the verdict is the
    conjunction of the two checks. *)
Theorem eligibility_short_circuits service fuel token rule rules' kept removed w e w1 :
  repo_exists service rule token w = (Ok e, w1) ->
  e = found_active service token rule
  ∧ w1 = after w [repo_url rule]
  ∧ (e = false ->
     sync_loop service fuel (rule :: rules') token kept removed w
     = sync_loop service fuel rules' token kept (removed ++ [rule]) w1)
  ∧ (e = true -> ∀ t w2,
     repo_has_required_tag service fuel rule token w1 = (Ok t, w2) ->
     sync_loop service fuel (rule :: rules') token kept removed w
     = sync_loop service fuel rules' token
         (if t then kept ++ [rule] else kept)
         (if t then removed else removed ++ [rule]) w2)
  ∧ (∀ pages,
     listing service token (Some (tags_url rule)) pages None ->
     Forall (fun p => Forall is_object p.2) pages ->
     length pages < fuel ->
     verdict service fuel token rule = Ok (e && holds_marker pages)
     ∧ entry_trace service fuel token rule
       = repo_url rule :: (if e then scanned pages else [])).
Proof.
  intros He. pose proof He as He'. rewrite repo_exists_run in He'.
  assert (existence service token rule = Ok e) as Hx by congruence.
  assert (w1 = after w [repo_url rule]) as Hw by congruence.
  assert (e = found_active service token rule) as Hfa.
  { unfold existence in Hx.
    destruct (service token (repo_url rule)) as [data headers|code body|name] eqn:Hs.
    - congruence.
    - unfold found_active. rewrite Hs. destruct (code =? 404)%Z; congruence.
    - done. }
  split_and!; [done..| | |].
  - intros ->. cbn [sync_loop]. unfold bind. by rewrite He.
  - intros -> t w2 Ht. cbn [sync_loop]. unfold bind. rewrite He. simpl.
    rewrite Ht. by destruct t.
  - intros pages Hl Hobj Hfuel.
    rewrite verdict_unfold, entry_trace_unfold, Hx. destruct e; [|done].
    unfold outcome, trace.
    by rewrite (tag_check_listing _ _ _ _ _ _ Hl Hobj Hfuel).
Qed.

Lemma eligibility_short_circuits_witness :
  false = found_active Demo.service "secret" "old"
  ∧ after Demo.world0 [repo_url "old"] = after Demo.world0 [repo_url "old"]
  ∧ (false = false ->
     sync_loop Demo.service 4 ["old"; "r1"] "secret" [] [] Demo.world0
     = sync_loop Demo.service 4 ["r1"] "secret" [] ([] ++ ["old"])
         (after Demo.world0 [repo_url "old"]))
  ∧ (false = true -> ∀ t w2,
     repo_has_required_tag Demo.service 4 "old" "secret"
       (after Demo.world0 [repo_url "old"]) = (Ok t, w2) ->
     sync_loop Demo.service 4 ["old"; "r1"] "secret" [] [] Demo.world0
     = sync_loop Demo.service 4 ["r1"] "secret"
         (if t then [] ++ ["old"] else [])
         (if t then [] else [] ++ ["old"]) w2)
  ∧ (∀ pages,
     listing Demo.service "secret" (Some (tags_url "old")) pages None ->
     Forall (fun p => Forall is_object p.2) pages ->
     length pages < 4 ->
     verdict Demo.service 4 "secret" "old" = Ok (false && holds_marker pages)
     ∧ entry_trace Demo.service 4 "secret" "old"
       = repo_url "old" :: (if false then scanned pages else [])).
Proof.
  apply (eligibility_short_circuits Demo.service 4 "secret" "old" ["r1"] [] []
           Demo.world0 false (after Demo.world0 [repo_url "old"])).
  reflexivity.
Defined.

(** The claim C1 as it stands fails: a metadata answer that is a list,
    not an object, gives the verdict false instead of an exception. *)
Lemma unexpected_payload_is_not_fatal :
  Demo.service "secret" (repo_url "odd") = Responded (JList []) []
  ∧ verdict Demo.service 1 "secret" "odd" = Ok false
  ∧ sync_loop Demo.service 1 ["odd"] "secret" [] [] blank
    = (Ok ([], ["odd"]), after blank [repo_url "odd"])
  ∧ ¬ every_remote_error_is_fatal.
Proof.
  split_and!; [reflexivity..|]. intros H.
  destruct (H Demo.service 1%nat "secret" "odd") as [e He]; [done..|].
  discriminate He.
Qed.

(** ** The claims on the reconciler *)

Lemma demo_entries : entries_of Demo.text = ["r1"; "r2"].
Proof. vm_compute. reflexivity. Defined.

Lemma demo_verdicts :
  Forall (has_verdict Demo.service 4 "secret") (entries_of Demo.text).
Proof.
  rewrite demo_entries.
  repeat constructor; eexists; vm_compute; reflexivity.
Defined.

Lemma demo_file : files Demo.world0 !! Demo.path = Some Demo.text.
Proof. vm_compute. reflexivity. Defined.

(** The claim C5 as it stands fails: a file whose one line ends with a
    carriage return and a line feed differs from the serialisation of
    its kept entry, and the reconciliation reports no change and writes
    nothing. *)
Lemma crlf_file_is_not_changed :
  files Sample.crlf_world !! Demo.path = Some Sample.crlf_text
  ∧ (sync_ruleset Demo.service 4 Demo.path "secret" false Sample.crlf_world).1
    = Ok (false, [])
  ∧ files (sync_ruleset Demo.service 4 Demo.path "secret" false Sample.crlf_world).2
    = files Sample.crlf_world
  ∧ serialize (filter (eligible Demo.service 4 "secret")
                 (entries_of Sample.crlf_text)) ≠ Sample.crlf_text
  ∧ ¬ changed_iff_content_differs.
Proof.
  assert (serialize (filter (eligible Demo.service 4 "secret")
                       (entries_of Sample.crlf_text)) ≠ Sample.crlf_text) as Hne.
  { vm_compute. discriminate. }
  split_and!; [vm_compute; reflexivity..|done|]. intros H.
  destruct (H Demo.service 4%nat "secret" Demo.path false Sample.crlf_text
              Sample.crlf_world false []
              (sync_ruleset Demo.service 4 Demo.path "secret" false
                 Sample.crlf_world).2) as [_ Hc].
  - vm_compute. reflexivity.
  - vm_compute. reflexivity.
  - discriminate (Hc Hne).
Qed.

(** C5, amended: the reconciliation serialises the kept entries with one
    line feed after each (so joined by line feeds, with one more at the
    end unless none is kept, and the empty text when none is kept); the
    changed flag says whether that text differs from the text of the
    file as it is read, a carriage return, alone or before a line feed,
    being read as a line feed; the file is rewritten with the
    serialisation exactly when the flag is set and the run is not
    check-only. *)
Theorem reconcile_serializes_and_persists service fuel token path check_only text w :
  files w !! path = Some text ->
  Forall (has_verdict service fuel token) (entries_of text) ->
  ∃ kept removed w1 w',
    sync_loop service fuel (entries_of text) token [] [] w = (Ok (kept, removed), w1)
    ∧ read_text path w = (Ok (Str.universal_newlines text), w)
    ∧ sync_ruleset service fuel path token check_only w
      = (Ok (negb (bool_decide (serialize kept = Str.universal_newlines text)),
             removed), w')
    ∧ serialize kept = foldr (fun x acc => x +:+ newline +:+ acc) "" kept
    ∧ (kept = [] <-> serialize kept = "")
    ∧ (kept ≠ [] -> serialize kept = Str.join newline kept +:+ newline)
    ∧ files w'
      = (if negb (bool_decide (serialize kept = Str.universal_newlines text))
            && negb check_only
         then <[path := serialize kept]> (files w) else files w)
    ∧ write_ruleset_file path kept w = (Ok tt, set_file path (serialize kept) w).
Proof.
  intros Hf Hv. eexists _, _, _, _.
  split; [by apply sync_loop_run|].
  split; [unfold read_text; by rewrite Hf|].
  split; [by apply sync_ruleset_run|].
  split; [apply serialize_concat|].
  split; [apply serialize_nil_iff|].
  split; [|split; [|done]].
  - intros Hk. unfold serialize. by destruct (filter _ _).
  - by destruct (negb _ && negb check_only).
Qed.

Lemma reconcile_serializes_and_persists_witness :
  ∃ kept removed w1 w',
    sync_loop Demo.service 4 (entries_of Sample.crlf_text) "secret" [] []
      Sample.crlf_world = (Ok (kept, removed), w1)
    ∧ read_text Demo.path Sample.crlf_world
      = (Ok (Str.universal_newlines Sample.crlf_text), Sample.crlf_world)
    ∧ sync_ruleset Demo.service 4 Demo.path "secret" false Sample.crlf_world
      = (Ok (negb (bool_decide
                     (serialize kept = Str.universal_newlines Sample.crlf_text)),
             removed), w')
    ∧ serialize kept = foldr (fun x acc => x +:+ newline +:+ acc) "" kept
    ∧ (kept = [] <-> serialize kept = "")
    ∧ (kept ≠ [] -> serialize kept = Str.join newline kept +:+ newline)
    ∧ files w'
      = (if negb (bool_decide
                    (serialize kept = Str.universal_newlines Sample.crlf_text))
            && negb false
         then <[Demo.path := serialize kept]> (files Sample.crlf_world)
         else files Sample.crlf_world)
    ∧ write_ruleset_file Demo.path kept Sample.crlf_world
      = (Ok tt, set_file Demo.path (serialize kept) Sample.crlf_world).
Proof.
  apply (reconcile_serializes_and_persists Demo.service 4 "secret" Demo.path
           false Sample.crlf_text Sample.crlf_world).
  - vm_compute. reflexivity.
  - assert (entries_of Sample.crlf_text = ["r1"]) as -> by (vm_compute; reflexivity).
    repeat constructor. eexists. vm_compute. reflexivity.
Defined.

(** C8: the kept entries are the eligible entries of the file and the
    removed entries are the others, each list in the order of the
    entries of the file. *)
Theorem reconcile_preserves_order service fuel token path check_only text w :
  files w !! path = Some text ->
  Forall (has_verdict service fuel token) (entries_of text) ->
  ∃ kept removed changed w1 w',
    sync_loop service fuel (entries_of text) token [] [] w = (Ok (kept, removed), w1)
    ∧ sync_ruleset service fuel path token check_only w = (Ok (changed, removed), w')
    ∧ kept = filter (eligible service fuel token) (entries_of text)
    ∧ removed = filter (fun r => ¬ eligible service fuel token r) (entries_of text)
    ∧ kept `sublist_of` entries_of text
    ∧ removed `sublist_of` entries_of text.
Proof.
  intros Hf Hv. eexists _, _, _, _, _.
  split; [by apply sync_loop_run|].
  split; [by apply sync_ruleset_run|].
  split_and!; [done..| |]; apply sublist_filter.
Qed.

Lemma reconcile_preserves_order_witness :
  ∃ kept removed changed w1 w',
    sync_loop Demo.service 4 (entries_of Demo.text) "secret" [] [] Demo.world0
    = (Ok (kept, removed), w1)
    ∧ sync_ruleset Demo.service 4 Demo.path "secret" true Demo.world0
      = (Ok (changed, removed), w')
    ∧ kept = filter (eligible Demo.service 4 "secret") (entries_of Demo.text)
    ∧ removed = filter (fun r => ¬ eligible Demo.service 4 "secret" r)
                  (entries_of Demo.text)
    ∧ kept `sublist_of` entries_of Demo.text
    ∧ removed `sublist_of` entries_of Demo.text.
Proof.
  apply (reconcile_preserves_order Demo.service 4 "secret" Demo.path true
           Demo.text Demo.world0).
  - apply demo_file.
  - apply demo_verdicts.
Defined.

(** C10: when a reconciliation returns, the loop has put every entry of
    the file in exactly one of the kept and removed lists, and nothing
    else in them. *)
Theorem reconcile_partitions service fuel token path check_only w changed removed w' :
  sync_ruleset service fuel path token check_only w = (Ok (changed, removed), w') ->
  ∃ text kept w1,
    files w !! path = Some text
    ∧ sync_loop service fuel (entries_of text) token [] [] w = (Ok (kept, removed), w1)
    ∧ kept ++ removed ≡ₚ entries_of text
    ∧ NoDup (kept ++ removed)
    ∧ ∀ x, (x ∈ entries_of text <-> x ∈ kept ∨ x ∈ removed)
           ∧ ¬ (x ∈ kept ∧ x ∈ removed).
Proof.
  intros H. destruct (sync_ruleset_Ok _ _ _ _ _ _ _ _ H) as (text & Hf & Hv).
  rewrite (sync_ruleset_run _ _ _ _ _ _ _ Hf Hv) in H. cbv zeta in H.
  assert (removed = filter (fun r => ¬ eligible service fuel token r)
                      (entries_of text)) as -> by congruence.
  exists text, (filter (eligible service fuel token) (entries_of text)).
  eexists. split; [done|]. split; [by apply sync_loop_run|].
  pose proof (filter_app_complement (eligible service fuel token)
                (entries_of text)) as Hp.
  destruct (entries_of_spec text) as [_ Hn].
  assert (NoDup (filter (eligible service fuel token) (entries_of text)
                 ++ filter (fun r => ¬ eligible service fuel token r)
                      (entries_of text))) as Hn'
    by (by rewrite Hp).
  split_and!; [done..|]. intros x. split.
  - rewrite <- Hp at 1. by rewrite elem_of_app.
  - intros [Hk Hr]. apply NoDup_app in Hn' as (_ & Hd & _). by apply (Hd x).
Qed.

Lemma reconcile_partitions_witness :
  ∃ text kept w1,
    files Demo.world0 !! Demo.path = Some text
    ∧ sync_loop Demo.service 4 (entries_of text) "secret" [] [] Demo.world0
      = (Ok (kept, ["r2"]), w1)
    ∧ kept ++ ["r2"] ≡ₚ entries_of text
    ∧ NoDup (kept ++ ["r2"])
    ∧ ∀ x, (x ∈ entries_of text <-> x ∈ kept ∨ x ∈ ["r2"])
           ∧ ¬ (x ∈ kept ∧ x ∈ ["r2"]).
Proof.
  apply (reconcile_partitions Demo.service 4 "secret" Demo.path false
           Demo.world0 true ["r2"]
           (sync_ruleset Demo.service 4 Demo.path "secret" false Demo.world0).2).
  vm_compute. reflexivity.
Defined.

(** The serialisation of the eligible entries of a text is a text whose
    entries are those, all eligible. *)
Lemma kept_canonical service fuel token text :
  let kept := filter (eligible service fuel token) (entries_of text) in
  entries_of (serialize kept) = kept
  ∧ Forall (eligible service fuel token) kept
  ∧ Forall (has_verdict service fuel token) kept.
Proof.
  cbv zeta. destruct (entries_of_spec text) as [He Hn].
  assert (Forall (eligible service fuel token)
            (filter (eligible service fuel token) (entries_of text))) as Hel.
  { apply Forall_forall. by intros x [Hx _]%list_elem_of_filter. }
  split_and!; [|done|].
  - apply entries_of_serialize; [|by apply NoDup_filter].
    apply Forall_forall. intros x [_ Hx]%list_elem_of_filter.
    by eapply Forall_forall in He.
  - eapply Forall_impl; [exact Hel|]. intros x Hx. by exists true.
Qed.

(** What a reconciliation in apply mode leaves in its file: a content
    that reads as the serialisation of the kept entries, and that is
    this serialisation when the file was rewritten. *)
Lemma sync_ruleset_apply_leaves service fuel token path text w :
  files w !! path = Some text ->
  Forall (has_verdict service fuel token) (entries_of text) ->
  let kept := filter (eligible service fuel token) (entries_of text) in
  let changed := negb (bool_decide (serialize kept = Str.universal_newlines text)) in
  let w' := (sync_ruleset service fuel path token false w).2 in
  ∃ text',
    files w' !! path = Some text'
    ∧ Str.universal_newlines text' = serialize kept
    ∧ entries_of text' = kept
    ∧ (if changed then text' = serialize kept else text' = text)
    ∧ (∀ other, other ≠ path -> files w' !! other = files w !! other).
Proof.
  intros Hf Hv. cbv zeta. rewrite (sync_ruleset_run _ _ _ _ _ _ _ Hf Hv). cbv zeta.
  destruct (kept_canonical service fuel token text) as (Hk & Hel & _).
  set (kept := filter (eligible service fuel token) (entries_of text)) in *.
  assert (Forall (fun s => Str.any Str.is_linebreak s = false) kept) as Hnl.
  { apply entries_no_linebreak, Forall_forall.
    intros x [_ Hx]%list_elem_of_filter.
    destruct (entries_of_spec text) as [He _]. by eapply Forall_forall in He. }
  case_bool_decide as Hc; simpl.
  - exists text. split_and!; [done|done| |done|done].
    by rewrite <- (entries_of_universal text), <- Hc.
  - exists (serialize kept). split_and!; [apply lookup_insert_eq| |done|done|].
    + by apply universal_newlines_serialize.
    + intros other Hne. by apply lookup_insert_ne.
Qed.

(** C6: after a reconciliation in apply mode has returned, the file
    reads as the serialisation of the kept entries (and holds it when
    the file was rewritten); a second reconciliation against the same
    service reads exactly those entries, keeps them all, removes none,
    reports no change and leaves the files as they are. *)
Theorem reconcile_is_idempotent service fuel token path w changed removed w' :
  sync_ruleset service fuel path token false w = (Ok (changed, removed), w') ->
  ∃ kept w'',
    read_text path w' = (Ok (serialize kept), w')
    ∧ (changed = true -> files w' !! path = Some (serialize kept))
    ∧ entries_of (serialize kept) = kept
    ∧ filter (eligible service fuel token) kept = kept
    ∧ sync_ruleset service fuel path token false w' = (Ok (false, []), w'')
    ∧ files w'' = files w'.
Proof.
  intros H. destruct (sync_ruleset_Ok _ _ _ _ _ _ _ _ H) as (text & Hf & Hv).
  destruct (sync_ruleset_apply_leaves _ _ _ _ _ _ Hf Hv)
    as (text' & Hf' & Hu & He & Hch & _).
  cbv zeta in *. rewrite H in Hf'. simpl in Hf'.
  rewrite (sync_ruleset_run _ _ _ _ _ _ _ Hf Hv) in H. cbv zeta in H.
  destruct (kept_canonical service fuel token text) as (Hk & Hel & Hkv).
  set (kept := filter (eligible service fuel token) (entries_of text)) in *.
  assert (changed = negb (bool_decide (serialize kept = Str.universal_newlines text)))
    as Hchanged by congruence.
  rewrite <- Hchanged in Hch.
  assert (Forall (has_verdict service fuel token) (entries_of text')) as Hv'
    by (by rewrite He).
  exists kept. eexists. split_and!; [| |done| | |].
  - unfold read_text. by rewrite Hf', Hu.
  - intros ->. by rewrite Hf', Hch.
  - by apply filter_all.
  - rewrite (sync_ruleset_run _ _ _ _ _ _ _ Hf' Hv'). cbv zeta.
    rewrite He, (filter_all _ _ Hel), (filter_none _ _ Hel), Hu.
    rewrite bool_decide_true by done. reflexivity.
  - done.
Qed.

Lemma reconcile_is_idempotent_witness :
  ∃ kept w'',
    read_text Demo.path
      (sync_ruleset Demo.service 4 Demo.path "secret" false Demo.world0).2
    = (Ok (serialize kept),
       (sync_ruleset Demo.service 4 Demo.path "secret" false Demo.world0).2)
    ∧ (true = true ->
       files (sync_ruleset Demo.service 4 Demo.path "secret" false Demo.world0).2
         !! Demo.path = Some (serialize kept))
    ∧ entries_of (serialize kept) = kept
    ∧ filter (eligible Demo.service 4 "secret") kept = kept
    ∧ sync_ruleset Demo.service 4 Demo.path "secret" false
        (sync_ruleset Demo.service 4 Demo.path "secret" false Demo.world0).2
      = (Ok (false, []), w'')
    ∧ files w''
      = files (sync_ruleset Demo.service 4 Demo.path "secret" false Demo.world0).2.
Proof.
  apply (reconcile_is_idempotent Demo.service 4 "secret" Demo.path Demo.world0
           true ["r2"]).
  vm_compute. reflexivity.
Defined.

(** ** The driver *)

Section MainProps.

Context (service : string -> string -> response) (fuel : nat) (token : string).

Lemma main_loop_check_files paths changed_any w :
  files (main_loop service fuel paths token true changed_any w).2 = files w.
Proof.
  revert changed_any w. induction paths as [|path paths IH]; intros c w; [done|].
  cbn [main_loop]. unfold bind at 1.
  pose proof (sync_ruleset_check_files service fuel token path w) as Hw.
  destruct (sync_ruleset service fuel path token true w)
    as [[[changed removed]| |] w1]; [|done..].
  simpl in Hw. unfold bind, print, ret.
  destruct removed, changed; simpl; by rewrite IH.
Qed.

(** The loop over the files in check mode, when every file can be
    reconciled. *)
Lemma main_loop_check_run paths changed_any w :
  Forall (reconcilable service fuel token (files w)) paths ->
  ∃ c' w',
    main_loop service fuel paths token true changed_any w = (Ok c', w')
    ∧ files w' = files w
    ∧ (c' = true <->
       changed_any = true
       ∨ Exists (would_change service fuel token (files w)) paths)
    ∧ (∀ path, path ∈ paths -> would_change service fuel token (files w) path ->
         (path +:+ ": would change") ∈ stdout w')
    ∧ (∀ line, line ∈ stdout w -> line ∈ stdout w').
Proof.
  revert changed_any w. induction paths as [|path paths IH]; intros c w Hall.
  { exists c, w. split_and!; [done..| | |done].
    - rewrite Exists_nil. tauto.
    - intros path Hp. by apply elem_of_nil in Hp. }
  apply Forall_cons in Hall as [(text & Hf & Hv) Hall].
  cbn [main_loop]. unfold bind at 1.
  rewrite (sync_ruleset_run _ _ _ _ _ _ _ Hf Hv). cbv zeta. rewrite andb_false_r.
  set (kept := filter (eligible service fuel token) (entries_of text)).
  set (removed := filter (fun r => ¬ eligible service fuel token r) (entries_of text)).
  set (w1 := after w _).
  assert (negb (bool_decide (serialize kept = Str.universal_newlines text)) = true
          <-> would_change service fuel token (files w) path) as Hch.
  { rewrite negb_true_iff, bool_decide_eq_false. split.
    - intros Hne. by exists text.
    - intros (text' & Hf' & Hne).
      assert (text' = text) as -> by congruence. exact Hne. }
  set (w2 := if removed is [] then w1
             else put_line (path +:+ ": removed " +:+ pretty (length removed)
                            +:+ " -> " +:+ Str.join ", " removed) w1).
  assert (files w2 = files w ∧ ∀ line, line ∈ stdout w -> line ∈ stdout w2) as [Hf2 Ho2].
  { unfold w2. destruct removed; simpl; [done|]. split; [done|].
    intros line Hl. apply elem_of_app. by left. }
  destruct (negb (bool_decide (serialize kept = Str.universal_newlines text))) eqn:Hc.
  - destruct (IH true (put_line (path +:+ ": would change") w2))
      as (c' & w' & Hrun & Hfw & Hc' & Hlines & Hout).
    { simpl. by rewrite Hf2. }
    exists c', w'. split.
    { unfold bind, print, ret. fold w2.
      destruct removed; simpl; exact Hrun. }
    simpl in Hfw. rewrite Hf2 in Hfw. split; [done|]. split_and!.
    + split; [intros _; right; apply Exists_cons_hd; by apply Hch|].
      intros _. apply Hc'. by left.
    + intros p [->|Hp]%elem_of_cons Hw.
      * apply Hout. simpl. apply elem_of_app. right. by apply list_elem_of_singleton.
      * apply Hlines; [done|]. simpl. by rewrite Hf2.
    + intros line Hl. apply Hout. simpl. apply elem_of_app. left. by apply Ho2.
  - destruct (IH c (put_line (path +:+ ": ok") w2))
      as (c' & w' & Hrun & Hfw & Hc' & Hlines & Hout).
    { simpl. by rewrite Hf2. }
    exists c', w'. split.
    { unfold bind, print, ret. fold w2.
      destruct removed; simpl; exact Hrun. }
    simpl in Hfw. rewrite Hf2 in Hfw. split; [done|]. split_and!.
    + rewrite Hc'. simpl. rewrite Hf2. rewrite Exists_cons.
      assert (¬ would_change service fuel token (files w) path) as Hn
        by (intros Hw; apply Hch in Hw; done).
      tauto.
    + intros p [->|Hp]%elem_of_cons Hw.
      * apply Hch in Hw. done.
      * apply Hlines; [done|]. simpl. by rewrite Hf2.
    + intros line Hl. apply Hout. simpl. apply elem_of_app. left. by apply Ho2.
Qed.

End MainProps.

Lemma main_check_files service fuel p argv w :
  "--check" ∈ argv ->
  files (main service fuel p argv w).2 = files w.
Proof.
  intros Hc. unfold main. rewrite bool_decide_true by done.
  unfold bind at 1, _token.
  destruct (getenv_or p "GITHUB_TOKEN" "GH_TOKEN") as [[|c token]|]; try done.
  simpl. destruct (rulesets_txt p) as [found|]; [|done].
  destruct (merge_sort String.le found) as [|path paths]; [done|].
  unfold bind.
  pose proof (main_loop_check_files service fuel (String c token) (path :: paths)
                false w) as Hw.
  destruct (main_loop _ _ _ _ _ _ _) as [[[]| |] w1]; done.
Qed.

(** C9: a run with [--check] writes no file, whatever happens.  When
    every file can be reconciled the run returns, its exit status is 1
    when a change is detected for some file and 0 when for none, and the
    output holds the line [would change] of each file with a change. *)
Theorem check_only_never_writes service fuel p argv w :
  "--check" ∈ argv ->
  files (main service fuel p argv w).2 = files w
  ∧ ∀ token found,
      _token p w = (Ok token, w) ->
      rulesets_txt p = Some found ->
      Forall (reconcilable service fuel token (files w)) found ->
      ∃ code w',
        main service fuel p argv w = (Ok code, w')
        ∧ exit_status (Ok code) = Some code
        ∧ files w' = files w
        ∧ (code = 1%Z <-> Exists (would_change service fuel token (files w)) found)
        ∧ (code = 0%Z
           <-> Forall (fun path => ¬ would_change service fuel token (files w) path)
                 found)
        ∧ (∀ path, path ∈ found ->
             would_change service fuel token (files w) path ->
             (path +:+ ": would change") ∈ stdout w').
Proof.
  intros Hc. split; [by apply main_check_files|].
  intros token found Ht Hd Hall. unfold main. rewrite bool_decide_true by done.
  unfold bind at 1. rewrite Ht, Hd.
  pose proof (merge_sort_Permutation String.le found) as Hperm.
  destruct (merge_sort String.le found) as [|path paths] eqn:Hs.
  { apply Permutation_nil in Hperm. subst found.
    eexists _, _. split; [reflexivity|]. split_and!; [done..| | |].
    - rewrite Exists_nil. split; done.
    - split; [constructor|done].
    - intros path Hp. by apply elem_of_nil in Hp. }
  rewrite <- Hs in *. clear Hs.
  destruct (main_loop_check_run service fuel token (merge_sort String.le found)
              false w) as (c' & w' & Hrun & Hfw & Hc' & Hlines & _).
  { by rewrite Hperm. }
  assert (c' = true <-> Exists (would_change service fuel token (files w)) found)
    as Hex.
  { rewrite Hc', Hperm. split; [by intros [?|?]|by right]. }
  unfold bind. rewrite Hrun. simpl.
  assert (∀ path, path ∈ found ->
            would_change service fuel token (files w) path ->
            (path +:+ ": would change") ∈ stdout w') as Hl'.
  { intros x Hx. apply Hlines. by rewrite Hperm. }
  destruct c'.
  - eexists _, _. split; [reflexivity|]. split_and!; [done..| | |].
    + split; [intros _; by apply Hex|done].
    + split; [done|]. intros Hno. apply proj1 in Hex.
      specialize (Hex eq_refl). apply Exists_exists in Hex as (x & Hx & Hw).
      by eapply Forall_forall in Hno.
    + intros x Hx Hw. simpl. apply elem_of_app. left. by apply Hl'.
  - eexists _, _. split; [reflexivity|]. split_and!; [done..| | |done].
    + split; [done|]. intros H%Hex. done.
    + split; [|done]. intros _. apply Forall_forall. intros x Hx Hw.
      assert (false = true); [|done]. apply Hex, Exists_exists. eauto.
Qed.

Lemma demo_reconcilable :
  Forall (reconcilable Demo.service 4 "secret" (files Demo.world0)) [Demo.path].
Proof.
  constructor; [|constructor]. exists Demo.text.
  split; [apply demo_file|apply demo_verdicts].
Defined.

Lemma check_only_never_writes_witness :
  files (main Demo.service 4 Demo.proc ["sync_rulesets.py"; "--check"] Demo.world0).2
  = files Demo.world0
  ∧ ∃ code w',
      main Demo.service 4 Demo.proc ["sync_rulesets.py"; "--check"] Demo.world0
      = (Ok code, w')
      ∧ exit_status (Ok code) = Some code
      ∧ files w' = files Demo.world0
      ∧ (code = 1%Z
         <-> Exists (would_change Demo.service 4 "secret" (files Demo.world0))
               [Demo.path])
      ∧ (code = 0%Z
         <-> Forall (fun path => ¬ would_change Demo.service 4 "secret"
                                    (files Demo.world0) path) [Demo.path])
      ∧ (∀ path, path ∈ [Demo.path] ->
           would_change Demo.service 4 "secret" (files Demo.world0) path ->
           (path +:+ ": would change") ∈ stdout w').
Proof.
  destruct (check_only_never_writes Demo.service 4 Demo.proc
              ["sync_rulesets.py"; "--check"] Demo.world0) as [Hf Hrun].
  - repeat constructor.
  - split; [exact Hf|].
    apply (Hrun "secret" [Demo.path]).
    + reflexivity.
    + reflexivity.
    + apply demo_reconcilable.
Defined.

(** ** The scenarios of the specification *)

(** Duplicates: the first occurrence stays. *)
Example dedup_example : read_ruleset_lines ["a"; "a"; "b"] = (["a"; "b"], []).
Proof. vm_compute. reflexivity. Qed.

(** A line is trimmed; a line with inner whitespace, a comment and a
    hidden name are rejected. *)
Example filtering_example :
  normalize_rule_name " a" = Some "a"
  ∧ normalize_rule_name "a b" = None
  ∧ normalize_rule_name "#comment" = None
  ∧ normalize_rule_name ".hidden" = None
  ∧ normalize_rule_name "_private" = None
  ∧ normalize_rule_name "   " = None.
Proof. vm_compute. repeat split. Qed.

(** The marker on the third page only: the entry is eligible, and the
    three pages are requested after the metadata. *)
Example third_page_example :
  verdict Demo.service 4 "secret" "r1" = Ok true
  ∧ entry_trace Demo.service 4 "secret" "r1"
    = [repo_url "r1"; tags_url "r1"; Demo.page2; Demo.page3].
Proof. vm_compute. split; reflexivity. Qed.

(** An archived repository: ineligible after the one metadata request. *)
Example archived_example :
  verdict Demo.service 4 "secret" "old" = Ok false
  ∧ entry_trace Demo.service 4 "secret" "old" = [repo_url "old"].
Proof. vm_compute. split; reflexivity. Qed.

(** A listing that never ends exhausts any fuel: the scan does not
    return. *)
Example endless_listing_example :
  let loop (token url : string) :=
    Responded (JList []) (Demo.link_to "https://api.github.com/again") in
  outcome (repo_has_required_tag loop 50 "r1" "secret") = OutOfFuel.
Proof. vm_compute. reflexivity. Qed.

(** End to end: [r1] stays and [r2], not found, goes; the file is
    rewritten, and a second run changes nothing. *)
Example end_to_end_example :
  let run1 := sync_ruleset Demo.service 4 Demo.path "secret" false Demo.world0 in
  let run2 := sync_ruleset Demo.service 4 Demo.path "secret" false run1.2 in
  run1.1 = Ok (true, ["r2"])
  ∧ files run1.2 !! Demo.path = Some ("r1" +:+ newline)
  ∧ run2.1 = Ok (false, [])
  ∧ files run2.2 = files run1.2.
Proof. vm_compute. repeat split. Qed.

(** The same file in check mode: status 1, the file untouched. *)
Example check_mode_example :
  let run := main Demo.service 4 Demo.proc ["sync_rulesets.py"; "--check"]
               Demo.world0 in
  run.1 = Ok 1%Z
  ∧ files run.2 = files Demo.world0
  ∧ stdout run.2
    = ["rulesets/core.txt: removed 1 -> r2"; "rulesets/core.txt: would change";
       "rulesets invalid: run sync to apply removals"].
Proof. vm_compute. repeat split. Qed.

(** * Further properties of the code *)

(** ** Reading and writing rulesets *)

Lemma read_ruleset_step_skip pre line :
  normalize_rule_name line = None ∨ Str.strip line ∈ Str.strip <$> pre ->
  read_ruleset_step (foldl read_ruleset_step (Reader [] [] ∅) pre) line
  = foldl read_ruleset_step (Reader [] [] ∅) pre.
Proof.
  intros H. pose proof (read_ruleset_inv pre) as (_ & Hs & Hr & _). cbv zeta in *.
  unfold read_ruleset_step.
  destruct (normalize_rule_name line) as [name|] eqn:E; [|done].
  destruct H as [?|Hin]; [done|].
  apply normalize_rule_name_Some in E as [-> He].
  rewrite bool_decide_true; [done|]. by apply Hs, Hr.
Qed.

Lemma splitlines_lines l :
  Forall (fun s => Str.any Str.is_linebreak s = false) l ->
  Str.splitlines (serialize l) = l.
Proof.
  induction 1 as [|x l Hx _ IH]; [done|].
  by rewrite serialize_cons, splitlines_line, IH.
Qed.

(** X1: a name that [normalize_rule_name] returns is returned unchanged
    when normalised again. *)
Theorem normalize_rule_name_idempotent raw s :
  normalize_rule_name raw = Some s -> normalize_rule_name s = Some s.
Proof.
  intros [-> He]%normalize_rule_name_Some.
  apply normalize_rule_name_Some. split; [|done]. symmetry. by apply strip_entry.
Qed.

Lemma normalize_rule_name_idempotent_witness :
  normalize_rule_name "rule-a" = Some "rule-a".
Proof.
  apply (normalize_rule_name_idempotent ("  rule-a" +:+ newline) "rule-a").
  vm_compute. reflexivity.
Defined.

(** X2: a line that is rejected, or whose trimmed text occurred on an
    earlier line, can be taken out of the lines without changing what is
    read. *)
Theorem read_ruleset_lines_skips pre line post :
  normalize_rule_name line = None ∨ Str.strip line ∈ Str.strip <$> pre ->
  read_ruleset_lines (pre ++ line :: post) = read_ruleset_lines (pre ++ post).
Proof.
  intros H. unfold read_ruleset_lines. rewrite !foldl_app. simpl.
  by rewrite (read_ruleset_step_skip _ _ H).
Qed.

Lemma read_ruleset_lines_skips_witness :
  read_ruleset_lines (["a"; "b"] ++ " a " :: ["c"])
  = read_ruleset_lines (["a"; "b"] ++ ["c"]).
Proof.
  apply (read_ruleset_lines_skips ["a"; "b"] " a " ["c"]).
  right. vm_compute. constructor.
Defined.

(** X3: reading the rules that were read gives them back: the reading
    loop is idempotent. *)
Theorem read_ruleset_lines_idempotent raw_lines :
  read_ruleset_lines (read_ruleset_lines raw_lines).1
  = ((read_ruleset_lines raw_lines).1, []).
Proof.
  pose proof (read_ruleset_inv raw_lines) as (_ & _ & Hr & Hn). cbv zeta in *.
  apply read_ruleset_lines_entries; [|done].
  apply Forall_forall. intros x Hx. by apply Hr in Hx as [? _].
Qed.

(** X4: writing lines that hold no line boundary with
    [write_ruleset_file] and reading the file back gives what the
    reading loop makes of the lines; for distinct entries, the lines
    themselves. *)
Theorem write_then_read_ruleset_file path l w :
  Forall (fun s => Str.any Str.is_linebreak s = false) l ->
  (let* _ := write_ruleset_file path l in read_ruleset_file path) w
  = (Ok (read_ruleset_lines l), set_file path (serialize l) w)
  ∧ (Forall is_entry l -> NoDup l -> read_ruleset_lines l = (l, [])).
Proof.
  intros Hl. split; [|apply read_ruleset_lines_entries].
  unfold bind, write_ruleset_file, write_text. fold (serialize l).
  rewrite (read_ruleset_file_run _ (serialize l)).
  - by rewrite (splitlines_lines _ Hl).
  - simpl. apply lookup_insert_eq.
Qed.

Lemma write_then_read_ruleset_file_witness :
  (let* _ := write_ruleset_file Demo.path ["b"; "# c"; "b"; "a"] in
   read_ruleset_file Demo.path) Demo.world0
  = (Ok (read_ruleset_lines ["b"; "# c"; "b"; "a"]),
     set_file Demo.path (serialize ["b"; "# c"; "b"; "a"]) Demo.world0)
  ∧ (Forall is_entry ["b"; "# c"; "b"; "a"] -> NoDup ["b"; "# c"; "b"; "a"] ->
     read_ruleset_lines ["b"; "# c"; "b"; "a"] = (["b"; "# c"; "b"; "a"], [])).
Proof.
  apply (write_then_read_ruleset_file Demo.path ["b"; "# c"; "b"; "a"] Demo.world0).
  repeat constructor.
Defined.

(** ** One reconciliation *)


(** X5: check mode and apply mode of [sync_ruleset] return the same
    result (the changed flag and the removed entries, or the same
    exception) and make the same requests; they differ in the files
    only. *)
Theorem sync_ruleset_check_predicts_apply service fuel token path w :
  (sync_ruleset service fuel path token true w).1
  = (sync_ruleset service fuel path token false w).1
  ∧ requests (sync_ruleset service fuel path token true w).2
    = requests (sync_ruleset service fuel path token false w).2
  ∧ stdout (sync_ruleset service fuel path token true w).2
    = stdout (sync_ruleset service fuel path token false w).2.
Proof.
  rewrite !sync_ruleset_unfold.
  destruct (files w !! path) as [text|]; [|done]. cbv zeta.
  destruct (outcome _) as [[kept removed]| |]; [|done..].
  rewrite andb_false_r, andb_true_r.
  by destruct (negb _).
Qed.

(** X6: a reconciliation that removes an entry reports a change: the
    report never lists removals for a file that it calls unchanged. *)
Theorem removal_implies_change service fuel token path check_only w changed removed w' :
  sync_ruleset service fuel path token check_only w = (Ok (changed, removed), w') ->
  removed ≠ [] -> changed = true.
Proof.
  intros H Hr. destruct (sync_ruleset_Ok _ _ _ _ _ _ _ _ H) as (text & Hf & Hv).
  rewrite (sync_ruleset_run _ _ _ _ _ _ _ Hf Hv) in H. cbv zeta in H.
  set (kept := filter (eligible service fuel token) (entries_of text)) in *.
  assert (changed = negb (bool_decide (serialize kept = Str.universal_newlines text)))
    as -> by congruence.
  assert (removed = filter (fun r => ¬ eligible service fuel token r)
                      (entries_of text)) as Hrem by congruence.
  apply negb_true_iff, bool_decide_eq_false. intros Ht. apply Hr.
  destruct (entries_of_spec text) as [He Hn].
  assert (entries_of text = kept) as Hk.
  { rewrite <- (entries_of_universal text), <- Ht. apply entries_of_serialize.
    - apply Forall_forall. intros x [_ Hx]%list_elem_of_filter.
      by eapply Forall_forall in He.
    - by apply NoDup_filter. }
  rewrite Hrem, Hk. apply filter_none.
  apply Forall_forall. by intros x [Hx _]%list_elem_of_filter.
Qed.

Lemma removal_implies_change_witness :
  (sync_ruleset Demo.service 4 Demo.path "secret" true Demo.world0).1
  = Ok (true, ["r2"])
  ∧ true = true.
Proof.
  split; [vm_compute; reflexivity|].
  apply (removal_implies_change Demo.service 4 "secret" Demo.path true
           Demo.world0 true ["r2"]
           (sync_ruleset Demo.service 4 Demo.path "secret" true Demo.world0).2).
  - vm_compute. reflexivity.
  - discriminate.
Defined.

(** X7: when every entry of the file is eligible nothing is removed, and
    the file still counts as changed unless its text, as it is read, is
    already the serialisation of its entries: comments, blank lines,
    surrounding whitespace and repeated entries are rewritten away,
    while carriage returns at the ends of the lines are left.  A file
    without entries costs no request. *)
Theorem sync_ruleset_canonical_rewrite service fuel token path check_only text w :
  files w !! path = Some text ->
  Forall (eligible service fuel token) (entries_of text) ->
  let changed :=
    negb (bool_decide (serialize (entries_of text) = Str.universal_newlines text)) in
  let w1 := after w (concat (entry_trace service fuel token <$> entries_of text)) in
  sync_ruleset service fuel path token check_only w
  = (Ok (changed, []),
     if changed && negb check_only
     then set_file path (serialize (entries_of text)) w1 else w1)
  ∧ (entries_of text = [] -> w1 = w).
Proof.
  intros Hf He. cbv zeta. split.
  - rewrite (sync_ruleset_run _ _ _ _ _ _ _ Hf).
    + cbv zeta. by rewrite (filter_all _ _ He), (filter_none _ _ He).
    + eapply Forall_impl; [exact He|]. intros x Hx. by exists true.
  - intros ->. apply after_nil.
Qed.

Lemma sync_ruleset_canonical_rewrite_witness :
  let changed :=
    negb (bool_decide (serialize (entries_of Sample.commented)
                       = Str.universal_newlines Sample.commented)) in
  let w1 := after Sample.world3
              (concat (entry_trace Demo.service 4 "secret"
                         <$> entries_of Sample.commented)) in
  sync_ruleset Demo.service 4 Sample.extra_path "secret" false Sample.world3
  = (Ok (changed, []),
     if changed && negb false
     then set_file Sample.extra_path (serialize (entries_of Sample.commented)) w1
     else w1)
  ∧ (entries_of Sample.commented = [] -> w1 = Sample.world3).
Proof.
  apply (sync_ruleset_canonical_rewrite Demo.service 4 "secret" Sample.extra_path
           false Sample.commented Sample.world3).
  - vm_compute. reflexivity.
  - assert (entries_of Sample.commented = ["r1"]) as -> by (vm_compute; reflexivity).
    repeat constructor.
Defined.

(** ** The driver, further *)

Lemma token_any_world p token w :
  _token p w = (Ok token, w) -> ∀ w', _token p w' = (Ok token, w').
Proof.
  unfold _token. destruct (getenv_or p "GITHUB_TOKEN" "GH_TOKEN") as [[|c t]|];
    try done.
  unfold ret. intros [= <-]. done.
Qed.


(** [main] once the token and the files are known. *)
Lemma main_run service fuel p argv token found w :
  _token p w = (Ok token, w) ->
  rulesets_txt p = Some found ->
  main service fuel p argv w
  = match merge_sort String.le found with
    | [] => (Ok 0%Z, put_line "No ruleset files found (rulesets/*.txt)." w)
    | paths =>
        let check_only := bool_decide ("--check" ∈ argv) in
        match main_loop service fuel paths token check_only false w with
        | (Ok changed_any, w') =>
            if check_only && changed_any
            then (Ok 1%Z, put_line "rulesets invalid: run sync to apply removals" w')
            else (Ok 0%Z, w')
        | (Raise e, w') => (Raise e, w')
        | (OutOfFuel, w') => (OutOfFuel, w')
        end
    end.
Proof.
  intros Ht Hd. unfold main, bind at 1. rewrite Ht, Hd.
  destruct (merge_sort String.le found) as [|path paths]; [done|].
  cbv zeta. unfold bind.
  destruct (main_loop _ _ _ _ _ _ _) as [[c| |] w']; [|done..].
  by destruct (bool_decide _ && c).
Qed.


(** The loop over distinct files in apply mode, when every file can be
    reconciled: each file ends with a content that reads as the
    serialisation of its eligible entries. *)
Lemma main_loop_apply_run service fuel token paths changed_any w :
  NoDup paths ->
  Forall (reconcilable service fuel token (files w)) paths ->
  ∃ c' w',
    main_loop service fuel paths token false changed_any w = (Ok c', w')
    ∧ (∀ path text, path ∈ paths -> files w !! path = Some text ->
         ∃ text',
           files w' !! path = Some text'
           ∧ Str.universal_newlines text'
             = serialize (filter (eligible service fuel token) (entries_of text))
           ∧ entries_of text'
             = filter (eligible service fuel token) (entries_of text))
    ∧ (∀ other, other ∉ paths -> files w' !! other = files w !! other).
Proof.
  revert changed_any w. induction paths as [|path paths IH]; intros c w Hnd Hall.
  { exists c, w. split_and!; [done| |done].
    intros path text Hp. by apply elem_of_nil in Hp. }
  apply NoDup_cons in Hnd as [Hnin Hnd].
  apply Forall_cons in Hall as [(text & Hf & Hv) Hall].
  destruct (sync_ruleset_apply_leaves _ _ _ _ _ _ Hf Hv)
    as (text1 & Hp1 & Hu1 & He1 & _ & Ho1). cbv zeta in *.
  cbn [main_loop]. unfold bind at 1.
  destruct (sync_ruleset service fuel path token false w)
    as [[[changed removed]| |] w1] eqn:Hs;
    [|rewrite (sync_ruleset_run _ _ _ _ _ _ _ Hf Hv) in Hs; done..].
  simpl in Hp1, Ho1.
  set (w2 := if removed is [] then w1
             else put_line (path +:+ ": removed " +:+ pretty (length removed)
                            +:+ " -> " +:+ Str.join ", " removed) w1).
  assert (files w2 = files w1) as Hf2 by (unfold w2; by destruct removed).
  set (w3 := put_line (path +:+ ": " +:+ (if changed then "updated" else "ok")) w2).
  destruct (IH (if changed then true else c) w3) as (c' & w' & Hrun & Hfiles & Hother).
  { done. }
  { simpl. rewrite Hf2. apply Forall_forall. intros p Hp.
    pose proof (proj1 (Forall_forall _ _) Hall p Hp) as (t & Ht & Hvt).
    exists t. split; [|done]. rewrite Ho1; [done|]. by intros ->. }
  exists c', w'. split.
  { unfold bind, print, ret. fold w2. unfold w3 in Hrun.
    destruct removed, changed; simpl; exact Hrun. }
  split.
  - intros p t [->|Hp]%elem_of_cons Ht.
    + assert (t = text) as -> by congruence. exists text1.
      rewrite Hother by done. simpl. by rewrite Hf2.
    + apply Hfiles; [done|]. simpl. rewrite Hf2, Ho1; [done|]. by intros ->.
  - intros other [Hne Hn]%not_elem_of_cons.
    rewrite Hother by done. simpl. rewrite Hf2. by apply Ho1.
Qed.

Lemma merge_sort_perm (l l' : list string) :
  l ≡ₚ l' -> merge_sort String.le l = merge_sort String.le l'.
Proof.
  intros Hp. apply (Sorted_unique String.le).
  - apply Sorted_merge_sort, _.
  - apply Sorted_merge_sort, _.
  - by rewrite !merge_sort_Permutation.
Qed.

(** X8: [_token] returns a token that is not empty: [GITHUB_TOKEN] when
    that is set and not empty, else [GH_TOKEN] when that is set and not
    empty; when both are unset or empty it raises [SystemExit].  It
    leaves the world as it is. *)
Theorem token_precedence p w :
  let a := environ p !! "GITHUB_TOKEN" in
  let b := environ p !! "GH_TOKEN" in
  (∃ t, _token p w = (Ok t, w) ∧ t ≠ ""
        ∧ (a = Some t ∨ (unset a ∧ b = Some t)))
  ∨ (_token p w
     = (Raise (SystemExit "Missing GITHUB_TOKEN (or GH_TOKEN) in environment."), w)
     ∧ unset a ∧ unset b).
Proof.
  cbv zeta. unfold _token, getenv_or, unset.
  destruct (environ p !! "GITHUB_TOKEN") as [[|c t]|];
    [destruct (environ p !! "GH_TOKEN") as [[|c' t']|]
    | |destruct (environ p !! "GH_TOKEN") as [[|c' t']|]];
    first [ by (right; split_and!; [reflexivity|auto..])
          | by (left; eexists; split_and!; [reflexivity|done|auto]) ].
Qed.

(** X9: [main] stops before any request, any output and any write when
    no token is set (also when the directory is missing as well) or when
    the directory is missing; with a directory that holds no ruleset
    file it prints one line and returns 0 without any request. *)
Theorem main_startup service fuel p argv w :
  (unset (environ p !! "GITHUB_TOKEN") -> unset (environ p !! "GH_TOKEN") ->
   main service fuel p argv w
   = (Raise (SystemExit "Missing GITHUB_TOKEN (or GH_TOKEN) in environment."), w))
  ∧ (∀ token, _token p w = (Ok token, w) -> rulesets_txt p = None ->
     main service fuel p argv w
     = (Raise (SystemExit "Missing rulesets/ directory."), w))
  ∧ (∀ token, _token p w = (Ok token, w) -> rulesets_txt p = Some [] ->
     main service fuel p argv w
     = (Ok 0%Z, put_line "No ruleset files found (rulesets/*.txt)." w)).
Proof.
  split_and!.
  - intros Ha Hb. unfold main, bind, _token, getenv_or.
    destruct Ha as [-> | ->], Hb as [-> | ->]; done.
  - intros token Ht Hd. unfold main, bind. by rewrite Ht, Hd.
  - intros token Ht Hd. by rewrite (main_run _ _ _ _ _ _ _ Ht Hd).
Qed.

Lemma main_startup_witness :
  main Demo.service 4 Sample.proc_no_token ["sync_rulesets.py"] Demo.world0
  = (Raise (SystemExit "Missing GITHUB_TOKEN (or GH_TOKEN) in environment."),
     Demo.world0).
Proof.
  destruct (main_startup Demo.service 4 Sample.proc_no_token ["sync_rulesets.py"]
              Demo.world0) as (H & _).
  apply H; [by right|by left].
Defined.

(** X10: without [--check] a run that returns returns 0, whether or not
    it changed files. *)
Theorem apply_mode_returns_zero service fuel p argv w code w' :
  "--check" ∉ argv ->
  main service fuel p argv w = (Ok code, w') ->
  code = 0%Z.
Proof.
  intros Hc. unfold main. rewrite bool_decide_false by done.
  unfold bind at 1. destruct (_token p w) as [[token| |] w0]; [|done..].
  destruct (rulesets_txt p) as [found|]; [|done].
  destruct (merge_sort String.le found) as [|path paths].
  { unfold bind, print, ret. by intros [= <- _]. }
  unfold bind. destruct (main_loop _ _ _ _ _ _ _) as [[c| |] w1]; [|done..].
  simpl. unfold ret. by intros [= <- _].
Qed.

Lemma apply_mode_returns_zero_witness :
  (main Demo.service 4 Demo.proc ["sync_rulesets.py"] Demo.world0).1 = Ok 0%Z
  ∧ files (main Demo.service 4 Demo.proc ["sync_rulesets.py"] Demo.world0).2
      !! Demo.path = Some ("r1" +:+ newline)
  ∧ 0%Z = 0%Z.
Proof.
  split_and!; [vm_compute; reflexivity..|].
  apply (apply_mode_returns_zero Demo.service 4 Demo.proc
           ["sync_rulesets.py"] Demo.world0 0%Z
           (main Demo.service 4 Demo.proc ["sync_rulesets.py"] Demo.world0).2).
  - intros H. apply list_elem_of_singleton in H. discriminate H.
  - vm_compute. reflexivity.
Defined.



(** X12: the order in which the ruleset files are found does not matter:
    [main] sorts them, so two listings of the same files give the same
    result, the same files and the same output. *)
Theorem main_sorts_the_files service fuel env found found' argv w :
  found ≡ₚ found' ->
  main service fuel (Process env (Some found)) argv w
  = main service fuel (Process env (Some found')) argv w.
Proof.
  intros Hp. unfold main. simpl. by rewrite (merge_sort_perm _ _ Hp).
Qed.

Lemma main_sorts_the_files_witness :
  main Demo.service 4
    (Process {[ "GH_TOKEN" := "secret" ]}
       (Some [Sample.notes_path; Demo.path; Sample.extra_path]))
    ["sync_rulesets.py"] Sample.world3
  = main Demo.service 4
      (Process {[ "GH_TOKEN" := "secret" ]}
         (Some [Demo.path; Sample.extra_path; Sample.notes_path]))
      ["sync_rulesets.py"] Sample.world3.
Proof.
  apply (main_sorts_the_files Demo.service 4 {[ "GH_TOKEN" := "secret" ]}).
  apply (Permutation_cons_app [Demo.path; Sample.extra_path] []). reflexivity.
Defined.

(** X13: after a run in apply mode over distinct files that can all be
    reconciled, every file reads as the serialisation of its eligible
    entries, and a run with [--check] right after returns 0 and changes
    nothing. *)
Theorem apply_then_check_passes service fuel p argv argv' token found w :
  "--check" ∉ argv -> "--check" ∈ argv' ->
  _token p w = (Ok token, w) ->
  rulesets_txt p = Some found ->
  NoDup found ->
  Forall (reconcilable service fuel token (files w)) found ->
  ∃ w1 w2,
    main service fuel p argv w = (Ok 0%Z, w1)
    ∧ (∀ path text, path ∈ found -> files w !! path = Some text ->
         read_text path w1
         = (Ok (serialize (filter (eligible service fuel token) (entries_of text))),
            w1))
    ∧ main service fuel p argv' w1 = (Ok 0%Z, w2)
    ∧ files w2 = files w1.
Proof.
  intros Hc Hc' Ht Hd Hnd Hall.
  pose proof (merge_sort_Permutation String.le found) as Hperm.
  rewrite (main_run _ _ _ _ _ _ _ Ht Hd).
  destruct (merge_sort String.le found) as [|path0 paths0] eqn:Hs.
  { apply Permutation_nil in Hperm. subst found.
    eexists _, _. split; [reflexivity|]. split.
    { intros path text Hp. by apply elem_of_nil in Hp. }
    rewrite (main_run _ _ _ argv' token []);
      [|by apply (token_any_world _ _ w)|done].
    rewrite Hs. done. }
  rewrite <- Hs in *. clear Hs. cbv zeta. rewrite bool_decide_false by done.
  destruct (main_loop_apply_run service fuel token (merge_sort String.le found)
              false w) as (c1 & w1 & Hrun & Hfiles & _).
  { by rewrite Hperm. }
  { by rewrite Hperm. }
  rewrite Hrun. simpl. exists w1.
  assert (∀ path text, path ∈ found -> files w !! path = Some text ->
            ∃ text',
              files w1 !! path = Some text'
              ∧ Str.universal_newlines text'
                = serialize (filter (eligible service fuel token) (entries_of text))
              ∧ entries_of text'
                = filter (eligible service fuel token) (entries_of text)) as Hfiles'.
  { intros path text Hp. apply Hfiles. by rewrite Hperm. }
  assert (Forall (fun path =>
            reconcilable service fuel token (files w1) path
            ∧ ¬ would_change service fuel token (files w1) path) found) as Hall1.
  { apply Forall_forall. intros path Hp.
    pose proof (proj1 (Forall_forall _ _) Hall path Hp) as (text & Hf & _).
    destruct (Hfiles' path text Hp Hf) as (text' & Hf1 & Hu & He).
    destruct (kept_canonical service fuel token text) as (Hk & Hel & Hv).
    split.
    - exists text'. split; [exact Hf1|]. by rewrite He.
    - intros (text'' & Hf' & Hne). apply Hne.
      assert (text'' = text') as -> by congruence.
      by rewrite He, (filter_all _ _ Hel), Hu. }
  rewrite (main_run _ _ _ argv' token found);
    [|by apply (token_any_world _ _ w)|done].
  assert (∀ path text, path ∈ found -> files w !! path = Some text ->
            read_text path w1
            = (Ok (serialize (filter (eligible service fuel token)
                                (entries_of text))), w1)) as Hread.
  { intros path text Hp Hf. destruct (Hfiles' path text Hp Hf) as (text' & Hf1 & Hu & _).
    unfold read_text. by rewrite Hf1, Hu. }
  destruct (merge_sort String.le found) as [|path1 paths1] eqn:Hs.
  { eexists. split; [reflexivity|]. split; [done|]. split; reflexivity. }
  rewrite <- Hs in *. clear Hs. cbv zeta. rewrite bool_decide_true by done.
  destruct (main_loop_check_run service fuel token (merge_sort String.le found)
              false w1) as (c2 & w2 & Hrun2 & Hf2 & Hc2 & _).
  { rewrite Hperm. eapply Forall_impl; [exact Hall1|]. by intros x [? _]. }
  rewrite Hrun2. destruct c2.
  - exfalso. destruct Hc2 as [Hc2 _]. destruct (Hc2 eq_refl) as [?|Hex]; [done|].
    rewrite Hperm in Hex. apply Exists_exists in Hex as (x & Hx & Hw).
    by apply (proj1 (Forall_forall _ _) Hall1 x Hx).
  - exists w2. split; [reflexivity|]. done.
Qed.

Lemma sample_reconcilable :
  Forall (reconcilable Demo.service 4 "secret" (files Sample.world3))
    [Sample.notes_path; Demo.path; Sample.extra_path].
Proof.
  repeat constructor.
  - exists Sample.notes. split; [vm_compute; reflexivity|].
    assert (entries_of Sample.notes = []) as -> by (vm_compute; reflexivity).
    constructor.
  - exists Demo.text. split; [vm_compute; reflexivity|apply demo_verdicts].
  - exists Sample.commented. split; [vm_compute; reflexivity|].
    assert (entries_of Sample.commented = ["r1"]) as -> by (vm_compute; reflexivity).
    repeat constructor. eexists. vm_compute. reflexivity.
Defined.

Lemma apply_then_check_passes_witness :
  ∃ w1 w2,
    main Demo.service 4 Sample.proc3 ["sync_rulesets.py"] Sample.world3
    = (Ok 0%Z, w1)
    ∧ (∀ path text,
         path ∈ [Sample.notes_path; Demo.path; Sample.extra_path] ->
         files Sample.world3 !! path = Some text ->
         read_text path w1
         = (Ok (serialize (filter (eligible Demo.service 4 "secret")
                             (entries_of text))), w1))
    ∧ main Demo.service 4 Sample.proc3 ["sync_rulesets.py"; "--check"] w1
      = (Ok 0%Z, w2)
    ∧ files w2 = files w1.
Proof.
  apply (apply_then_check_passes Demo.service 4 Sample.proc3
           ["sync_rulesets.py"] ["sync_rulesets.py"; "--check"] "secret"
           [Sample.notes_path; Demo.path; Sample.extra_path] Sample.world3).
  - intros H. apply list_elem_of_singleton in H. discriminate H.
  - repeat constructor.
  - reflexivity.
  - reflexivity.
  - apply (bool_decide_unpack _). vm_compute. exact I.
  - apply sample_reconcilable.
Defined.

(** ** Pagination, further *)

Section PaginationProps.

Context (service : string -> string -> response) (token : string).

(** Fuel that does not outlast the pages runs out. *)
Lemma paginate_short start pages stop :
  listing service token start pages stop -> unmarked pages ->
  ∀ n w, n <= length pages ->
         (_paginate service n start token tag_body w).1 = OutOfFuel.
Proof.
  intros Hl [Hobj Hm]. revert Hobj Hm.
  induction Hl as [stop|u items headers pages stop Hu Hs _ IH];
    intros Hobj Hm n w Hn.
  { simpl in Hn. by replace n with 0 by lia. }
  destruct n as [|n]; [done|].
  apply Forall_cons in Hobj as [Hi Hobj]. simpl in Hi.
  cbn in Hm. apply orb_false_elim in Hm as [Hmi Hm].
  rewrite paginate_step by done. unfold answer. rewrite Hs.
  unfold bind. rewrite (yield_tags _ _ Hi), Hmi.
  apply IH; [done..|]. simpl in Hn. lia.
Qed.

(** A listing that comes back to its own start never ends. *)
Lemma paginate_cycle u cycle :
  listing service token (Some u) cycle (Some u) -> cycle ≠ [] -> unmarked cycle ->
  ∀ n w, (_paginate service n (Some u) token tag_body w).1 = OutOfFuel.
Proof.
  intros Hl Hne Hun n. induction n as [n IH] using lt_wf_ind. intros w.
  destruct (decide (n <= length cycle)) as [Hle|Hgt].
  { by eapply paginate_short. }
  replace n with (length cycle + (n - length cycle)) by lia.
  destruct Hun as [Hobj Hm].
  rewrite (paginate_scan _ _ _ _ _ Hl Hobj), Hm.
  apply IH. destruct cycle; [done|]. simpl. lia.
Qed.

(** X14: when the listing of tags leads, through pages without the
    marker, into a cycle of pages without the marker, the tag check
    returns with no amount of fuel: [_paginate] follows the links for
    ever. *)
Theorem cyclic_listing_never_returns repo pages u cycle :
  listing service token (Some (tags_url repo)) pages (Some u) -> unmarked pages ->
  listing service token (Some u) cycle (Some u) -> cycle ≠ [] -> unmarked cycle ->
  ∀ fuel w,
    (repo_has_required_tag service fuel repo token w).1 = OutOfFuel
    ∧ (found_active service token repo = true ->
       verdict service fuel token repo = OutOfFuel).
Proof.
  intros Hl Hun Hc Hne Hcu fuel.
  assert (∀ w, (repo_has_required_tag service fuel repo token w).1 = OutOfFuel) as H.
  { intros w. rewrite tag_check_run.
    assert ((_paginate service fuel (Some (tags_url repo)) token tag_body w).1
            = OutOfFuel) as Hp.
    { destruct (decide (fuel <= length pages)) as [Hle|Hgt].
      { by eapply paginate_short. }
      replace fuel with (length pages + (fuel - length pages)) by lia.
      destruct Hun as [Hobj Hm].
      rewrite (paginate_scan _ _ _ _ _ Hl Hobj), Hm.
      by eapply paginate_cycle. }
    destruct (_paginate _ _ _ _ _ _) as [[[b|]| |] w']; done. }
  intros w. split; [apply H|].
  intros Hfa. rewrite verdict_unfold. apply existence_true in Hfa as ->.
  apply H.
Qed.

End PaginationProps.

Lemma sample_cycle token :
  listing Sample.looping token (Some (tags_url "r1"))
    [(tags_url "r1", [Demo.tag "v0"]); (Demo.page2, [Demo.tag "v2"])]
    (Some (tags_url "r1")).
Proof.
  eapply (listing_cons _ _ _ _ (Demo.link_to Demo.page2)); [done|reflexivity|].
  change (next_url_of _) with (Some Demo.page2).
  eapply (listing_cons _ _ _ _ (Demo.link_to (tags_url "r1"))); [done|reflexivity|].
  change (next_url_of _) with (Some (tags_url "r1")).
  apply listing_nil.
Defined.

Lemma cyclic_listing_never_returns_witness :
  found_active Sample.looping "secret" "r1" = true
  ∧ ∀ fuel w,
      (repo_has_required_tag Sample.looping fuel "r1" "secret" w).1 = OutOfFuel
      ∧ (found_active Sample.looping "secret" "r1" = true ->
         verdict Sample.looping fuel "secret" "r1" = OutOfFuel).
Proof.
  split; [reflexivity|].
  apply (cyclic_listing_never_returns Sample.looping "secret" "r1" []
           (tags_url "r1")
           [(tags_url "r1", [Demo.tag "v0"]); (Demo.page2, [Demo.tag "v2"])]).
  - apply listing_nil.
  - split; [constructor|reflexivity].
  - apply sample_cycle.
  - discriminate.
  - split; [repeat constructor|reflexivity].
Defined.

(** ** The link header *)

Lemma until_gt_spec s g :
  until_gt s = Some g ->
  Str.any (fun c => Ascii.eqb c ">") g = false
  ∧ ∃ b, s = g +:+ ">" +:+ b.
Proof.
  revert g. induction s as [|c s IH]; intros g; [done|]. simpl.
  destruct (Ascii.eqb c ">") eqn:E.
  - intros [= <-]. split; [done|]. exists s. apply Ascii.eqb_eq in E as ->. done.
  - destruct (until_gt s) as [g'|]; [|done]. simpl. intros [= <-].
    destruct (IH g' eq_refl) as (Hg & b & ->). split.
    + simpl. by rewrite E.
    + by exists b.
Qed.

Lemma until_gt_head u tail :
  Str.any (fun c => Ascii.eqb c ">") u = false ->
  until_gt (u +:+ ">" +:+ tail) = Some u.
Proof.
  induction u as [|c u IH]; [done|]. simpl. intros [Hc Hu]%orb_false_elim.
  change (String c u +:+ ">" +:+ tail) with (String c (u +:+ ">" +:+ tail)).
  simpl. by rewrite Hc, (IH Hu).
Qed.

Lemma search_angle_spec s g :
  search_angle s = Some g ->
  g ≠ "" ∧ Str.any (fun c => Ascii.eqb c ">") g = false
  ∧ ∃ a b, s = a +:+ "<" +:+ g +:+ ">" +:+ b.
Proof.
  induction s as [|c s IH]; [done|]. simpl.
  assert (search_angle s = Some g ->
          g ≠ "" ∧ Str.any (fun c => Ascii.eqb c ">") g = false
          ∧ ∃ a b, String c s = a +:+ "<" +:+ g +:+ ">" +:+ b) as Hrec.
  { intros (Hg & Hn & a & b & ->)%IH. split_and!; [done..|].
    by exists (String c a), b. }
  destruct (Ascii.eqb c "<") eqn:E; [|done].
  destruct (until_gt s) as [[|x xs]|] eqn:Hu; [done| |done].
  intros [= <-]. apply until_gt_spec in Hu as (Hn & b & ->).
  split_and!; [done..|]. exists "", b. apply Ascii.eqb_eq in E as ->. done.
Qed.

Lemma search_angle_head u tail :
  u ≠ "" -> Str.any (fun c => Ascii.eqb c ">") u = false ->
  search_angle ("<" +:+ u +:+ ">" +:+ tail) = Some u.
Proof.
  intros Hu Hn. change ("<" +:+ u +:+ ">" +:+ tail)
    with (String "<" (u +:+ ">" +:+ tail)).
  simpl. rewrite (until_gt_head _ _ Hn). by destruct u.
Qed.

Lemma lstrip_spec s : ∃ a, s = a +:+ Str.lstrip s.
Proof.
  induction s as [|c s [a IH]]; [by exists ""|]. simpl.
  destruct (Str.isspace c); [|by exists ""].
  exists (String c a). by rewrite IH at 1.
Qed.

Lemma rstrip_spec s : ∃ b, s = Str.rstrip s +:+ b.
Proof.
  induction s as [|c s [b IH]]; [by exists ""|]. simpl.
  destruct (Str.rstrip s) as [|x xs] eqn:E.
  - destruct (Str.isspace c); [by exists (String c s)|].
    exists b. by rewrite IH at 1.
  - exists b. by rewrite IH at 1.
Qed.

Lemma strip_spec s : ∃ a b, s = a +:+ Str.strip s +:+ b.
Proof.
  destruct (lstrip_spec s) as [a Ha].
  destruct (rstrip_spec (Str.lstrip s)) as [b Hb].
  exists a, b. unfold Str.strip. by rewrite <- Hb.
Qed.

Lemma split_head sep s :
  ∃ p ps b, Str.split sep s = p :: ps ∧ s = p +:+ b.
Proof.
  induction s as [|c s (p & ps & b & IH & Hs)]; simpl.
  { by exists "", [], "". }
  destruct (Ascii.eqb c sep).
  - by exists "", (Str.split sep s), (String c s).
  - rewrite IH. exists (String c p), ps, b. by rewrite Hs at 1.
Qed.

Lemma split_spec sep s part :
  part ∈ Str.split sep s -> ∃ a b, s = a +:+ part +:+ b.
Proof.
  revert part. induction s as [|c s IH]; intros part; simpl.
  { intros ->%list_elem_of_singleton. by exists "", "". }
  destruct (Ascii.eqb c sep).
  - intros [->|Hp]%elem_of_cons.
    + by exists "", (String c s).
    + destruct (IH _ Hp) as (a & b & ->). by exists (String c a), b.
  - destruct (split_head sep s) as (p & ps & b & E & Hs). rewrite E in *.
    intros [->|Hp]%elem_of_cons.
    + exists "", b. by rewrite Hs at 1.
    + destruct (IH part) as (a & b' & ->); [by right|].
      by exists (String c a), b'.
Qed.

Lemma next_url_loop_spec parts u :
  next_url_loop parts = Some u ->
  ∃ part, part ∈ parts ∧ search_angle (Str.strip part) = Some u.
Proof.
  induction parts as [|part parts IH]; [done|]. simpl.
  case_bool_decide.
  { intros (p & Hp & Hs)%IH. exists p. split; [by right|done]. }
  destruct (Str.contains REL_NEXT (Str.strip part)).
  - intros Hs. exists part. split; [by left|done].
  - intros (p & Hp & Hs)%IH. exists p. split; [by right|done].
Qed.

(** X15: the next URL that [_paginate] takes from the headers is never
    empty, holds no [>], and stands between angle brackets in the link
    header; without a link header there is none. *)
Theorem next_url_is_in_the_link_header (headers : gmap string string) u :
  next_url_of headers = Some u ->
  u ≠ "" ∧ Str.any (fun c => Ascii.eqb c ">") u = false
  ∧ ∃ link a b, headers !! "link" = Some link
                ∧ link = a +:+ "<" +:+ u +:+ ">" +:+ b.
Proof.
  unfold next_url_of. intros (part & Hp & Hs)%next_url_loop_spec.
  apply search_angle_spec in Hs as (Hu & Hn & a & b & Hs).
  split_and!; [done..|].
  destruct (strip_spec part) as (a1 & b1 & Hpart).
  destruct (split_spec _ _ _ Hp) as (a2 & b2 & Hlink).
  destruct (headers !! "link") as [link|] eqn:Hl; simpl in *.
  - exists link, (a2 +:+ a1 +:+ a), (b +:+ b1 +:+ b2). split; [done|].
    rewrite Hlink, Hpart, Hs. by rewrite !string_app_assoc.
  - destruct a2, part; try done. destruct a1; simpl in Hpart; [|done].
    rewrite Hs in Hpart. by destruct a.
Qed.

Lemma next_url_is_in_the_link_header_witness :
  Demo.page2 ≠ ""
  ∧ Str.any (fun c => Ascii.eqb c ">") Demo.page2 = false
  ∧ ∃ link a b, lower_keys (Demo.link_to Demo.page2) !! "link" = Some link
                ∧ link = a +:+ "<" +:+ Demo.page2 +:+ ">" +:+ b.
Proof.
  apply (next_url_is_in_the_link_header (lower_keys (Demo.link_to Demo.page2))).
  vm_compute. reflexivity.
Defined.

Lemma split_nosep sep s :
  Str.any (fun c => Ascii.eqb c sep) s = false -> Str.split sep s = [s].
Proof.
  induction s as [|c s IH]; [done|]. simpl. intros [Hc Hs]%orb_false_elim.
  by rewrite Hc, (IH Hs).
Qed.

Lemma split_app_sep sep s t :
  Str.any (fun c => Ascii.eqb c sep) s = false ->
  Str.split sep (s +:+ String sep t) = s :: Str.split sep t.
Proof.
  induction s as [|c s IH].
  - intros _. change ("" +:+ String sep t) with (String sep t). simpl.
    by rewrite Ascii.eqb_refl.
  - simpl. intros [Hc Hs]%orb_false_elim.
    change (String c s +:+ String sep t) with (String c (s +:+ String sep t)).
    simpl. by rewrite Hc, (IH Hs).
Qed.

Lemma split_join parts :
  parts ≠ [] ->
  Forall (fun p => Str.any (fun c => Ascii.eqb c ",") p = false) parts ->
  Str.split "," (Str.join "," parts) = parts.
Proof.
  intros Hne Hall. induction Hall as [|x parts Hx Hall IH]; [done|].
  destruct parts as [|y parts]; [by apply split_nosep|].
  change (Str.join "," (x :: y :: parts))
    with (x +:+ String "," (Str.join "," (y :: parts))).
  rewrite (split_app_sep _ _ _ Hx), IH; done.
Qed.

Lemma next_url_loop_skip before parts :
  Forall (fun p => Str.contains REL_NEXT (Str.strip p) = false) before ->
  next_url_loop (before ++ parts) = next_url_loop parts.
Proof.
  induction 1 as [|p before Hp _ IH]; [done|]. simpl.
  rewrite Hp, IH. by case_bool_decide.
Qed.

(** X16: a link header made of comma-free parts, none of which before
    [part] carries [rel="next"], and where [part], trimmed, starts with a
    URL in angle brackets and carries [rel="next"], gives that URL as the
    next one. *)
Theorem next_url_of_link_header (headers : gmap string string)
    before part rest u tail :
  headers !! "link" = Some (Str.join "," (before ++ part :: rest)) ->
  Forall (fun p => Str.any (fun c => Ascii.eqb c ",") p = false)
    (before ++ part :: rest) ->
  Forall (fun p => Str.contains REL_NEXT (Str.strip p) = false) before ->
  Str.strip part = "<" +:+ u +:+ ">" +:+ tail ->
  Str.contains REL_NEXT (Str.strip part) = true ->
  u ≠ "" -> Str.any (fun c => Ascii.eqb c ">") u = false ->
  next_url_of headers = Some u.
Proof.
  intros Hl Hsep Hbefore Hpart Hrel Hu Hgt. unfold next_url_of. rewrite Hl. simpl.
  rewrite split_join; [|by destruct before|done].
  rewrite (next_url_loop_skip _ _ Hbefore). simpl.
  rewrite Hrel, Hpart. rewrite bool_decide_false by done.
  by apply search_angle_head.
Qed.

Lemma next_url_of_link_header_witness :
  next_url_of
    {[ "link" :=
         Str.join ","
           (["<https://api.github.com/first>; rel=first"]
            ++ (" <" +:+ Demo.page3 +:+ ">; " +:+ REL_NEXT)
            :: [" <https://api.github.com/last>; rel=last"]) ]}
  = Some Demo.page3.
Proof.
  apply (next_url_of_link_header _
           ["<https://api.github.com/first>; rel=first"]
           (" <" +:+ Demo.page3 +:+ ">; " +:+ REL_NEXT)
           [" <https://api.github.com/last>; rel=last"]
           Demo.page3 ("; " +:+ REL_NEXT)).
  - apply lookup_singleton_eq.
  - repeat constructor.
  - repeat constructor.
  - reflexivity.
  - reflexivity.
  - discriminate.
  - reflexivity.
Defined.

(** X17: the headers are looked up by their lower-case names, and of the
    headers with the same lower-case name the last one counts. *)
Theorem lower_keys_last_wins headers name value later :
  Forall (fun kv => Str.lower kv.1 ≠ Str.lower name) later ->
  lower_keys (headers ++ (name, value) :: later) !! Str.lower name = Some value.
Proof.
  induction later as [|[k v] later IH] using rev_ind; intros Hl.
  - unfold lower_keys. rewrite foldl_snoc. apply lookup_insert_eq.
  - apply Forall_app in Hl as [Hl Hk]. rewrite Forall_singleton in Hk.
    rewrite app_comm_cons, app_assoc. unfold lower_keys. rewrite foldl_snoc.
    simpl in *. rewrite lookup_insert_ne by done. by apply IH.
Qed.

Lemma lower_keys_last_wins_witness :
  lower_keys ([("link", "<a>")] ++ ("LINK", "<b>") :: [("Date", "today")])
    !! Str.lower "LINK" = Some "<b>".
Proof.
  apply (lower_keys_last_wins [("link", "<a>")] "LINK" "<b>" [("Date", "today")]).
  repeat constructor. discriminate.
Defined.

(** ** The URLs of the requests *)

Lemma quote_char_safe c :
  Str.any (fun x => negb (Quote.unreserved x || Ascii.eqb x "%"))
    (Quote.quote_char c) = false.
Proof. destruct c as [[] [] [] [] [] [] [] []]; reflexivity. Qed.

(** X18: a name made of letters, digits and [_.-~/] is requested under
    its own text, at [API_BASE/repos/ORG/name]; whatever the name, the
    quoted text holds only those characters and [%]. *)
Theorem repo_url_quotes_the_name s :
  (Str.any (fun c => negb (Quote.unreserved c)) s = false ->
   Quote.quote s = s
   ∧ repo_url s = "https://api.github.com/repos/CursorCult/" +:+ s)
  ∧ Str.any (fun x => negb (Quote.unreserved x || Ascii.eqb x "%"))
      (Quote.quote s) = false.
Proof.
  split.
  - intros Hs. assert (Quote.quote s = s) as Hq.
    { induction s as [|c s IH]; [done|]. simpl in *.
      apply orb_false_elim in Hs as [Hc Hs]. apply negb_false_iff in Hc.
      unfold Quote.quote_char. rewrite Hc, (IH Hs). done. }
    split; [done|]. unfold repo_url. rewrite Hq. done.
  - induction s as [|c s IH]; [done|]. simpl.
    by rewrite any_append, quote_char_safe, IH.
Qed.

Lemma repo_url_quotes_the_name_witness :
  Quote.quote "rule-a_1.x" = "rule-a_1.x"
  ∧ repo_url "rule-a_1.x" = "https://api.github.com/repos/CursorCult/" +:+ "rule-a_1.x".
Proof.
  destruct (repo_url_quotes_the_name "rule-a_1.x") as [H _].
  apply H. reflexivity.
Defined.

(** ** The last line of a file *)

Lemma splitlines_final_newline_aux n :
  ∀ t, String.length t = n ->
       Str.splitlines (t +:+ newline) = Str.splitlines t
       ∨ Str.splitlines (t +:+ newline) = Str.splitlines t ++ [""].
Proof.
  induction n as [n IH] using lt_wf_ind. intros t Hn.
  destruct t as [|c rest]; [by right|].
  change (String c rest +:+ newline) with (String c (rest +:+ newline)).
  destruct (Str.is_linebreak c) eqn:Hc.
  - destruct rest as [|c' rest'].
    + change ("" +:+ newline) with (String "010" "").
      rewrite (splitlines_break2 _ _ _ Hc), (splitlines_break1 _ Hc).
      destruct ((N_of_ascii c =? 13)%N && _); [by left|by right].
    + change (String c' rest' +:+ newline) with (String c' (rest' +:+ newline)).
      rewrite !(splitlines_break2 _ _ _ Hc).
      destruct ((N_of_ascii c =? 13)%N && (N_of_ascii c' =? 10)%N).
      * destruct (IH (String.length rest') ltac:(simpl in Hn; lia) rest' eq_refl)
          as [-> | ->]; [by left|by right].
      * change (String c' (rest' +:+ newline)) with (String c' rest' +:+ newline).
        destruct (IH (String.length (String c' rest'))
                    ltac:(simpl in Hn; simpl; lia) (String c' rest') eq_refl)
          as [-> | ->]; [by left|by right].
  - rewrite !(splitlines_char _ _ Hc).
    destruct (IH (String.length rest) ltac:(simpl in Hn; lia) rest eq_refl)
      as [-> | ->].
    + by left.
    + destruct (Str.splitlines rest); [by left|by right].
Qed.

(** X19: one more line feed at the end of a text does not change its
    entries: a file is read the same with and without its final line
    feed, and with a blank last line. *)
Theorem entries_ignore_final_newline text :
  entries_of (text +:+ newline) = entries_of text.
Proof.
  unfold entries_of.
  destruct (splitlines_final_newline_aux _ text eq_refl) as [-> | ->]; [done|].
  unfold read_ruleset_lines. rewrite foldl_snoc.
  by rewrite (read_ruleset_step_skip _ ""); [|left].
Qed.

(** ** What a reconciliation leaves in the file *)

(** X20: after a reconciliation in apply mode has returned, the entries
    of the file are eligible entries of the file as it was, in the same
    order: the run adds no entry and reorders none. *)
Theorem sync_ruleset_only_removes service fuel token path w changed removed w' :
  sync_ruleset service fuel path token false w = (Ok (changed, removed), w') ->
  ∃ text text',
    files w !! path = Some text
    ∧ files w' !! path = Some text'
    ∧ entries_of text' `sublist_of` entries_of text
    ∧ Forall (eligible service fuel token) (entries_of text')
    ∧ (∀ x, x ∈ entries_of text -> x ∉ entries_of text' -> x ∈ removed).
Proof.
  intros H. destruct (sync_ruleset_Ok _ _ _ _ _ _ _ _ H) as (text & Hf & Hv).
  destruct (sync_ruleset_apply_leaves _ _ _ _ _ _ Hf Hv)
    as (text' & Hf' & _ & He & _). cbv zeta in *.
  rewrite H in Hf'. simpl in Hf'.
  rewrite (sync_ruleset_run _ _ _ _ _ _ _ Hf Hv) in H. cbv zeta in H.
  destruct (kept_canonical service fuel token text) as (_ & Hel & _).
  assert (removed = filter (fun r => ¬ eligible service fuel token r)
                      (entries_of text)) as -> by congruence.
  exists text, text'. rewrite He.
  split_and!; [done|done|apply sublist_filter|done|].
  intros x Hx Hn. apply list_elem_of_filter. split; [|done].
  intros Hx'. apply Hn. by apply list_elem_of_filter.
Qed.

Lemma sync_ruleset_only_removes_witness :
  ∃ text text',
    files Demo.world0 !! Demo.path = Some text
    ∧ files (sync_ruleset Demo.service 4 Demo.path "secret" false Demo.world0).2
        !! Demo.path = Some text'
    ∧ entries_of text' `sublist_of` entries_of text
    ∧ Forall (eligible Demo.service 4 "secret") (entries_of text')
    ∧ (∀ x, x ∈ entries_of text -> x ∉ entries_of text' -> x ∈ ["r2"]).
Proof.
  apply (sync_ruleset_only_removes Demo.service 4 "secret" Demo.path Demo.world0
           true ["r2"]).
  vm_compute. reflexivity.
Defined.

(** ** Remote failures and the run *)

Lemma main_loop_app service fuel token before rest check_only changed_any w :
  main_loop service fuel (before ++ rest) token check_only changed_any w
  = match main_loop service fuel before token check_only changed_any w with
    | (Ok c, w1) => main_loop service fuel rest token check_only c w1
    | (Raise e, w1) => (Raise e, w1)
    | (OutOfFuel, w1) => (OutOfFuel, w1)
    end.
Proof.
  revert changed_any w.
  induction before as [|path before IH]; intros c w; [reflexivity|].
  rewrite <- app_comm_cons. cbn [main_loop]. unfold bind.
  destruct (sync_ruleset service fuel path token check_only w)
    as [[[changed removed]| |] w1]; [|reflexivity..].
  unfold print, ret. destruct removed, changed; simpl; apply IH.
Qed.

(** C1, amended: validating an entry that meets a remote failure (an
    HTTP error other than a 404 on the metadata, an HTTP error on a page
    of tags, a failure of the transport or of the decoding, a page of
    tags that is not a list, a tag that is not an object) raises that
    error.  When the run reaches, after the files before it, a file with
    such an entry behind entries that got their verdicts, [main] ends
    with the error and the exit status 1, and nothing is written or
    printed for that file or the files after it: the files and the
    output stay as the files before it left them.  A metadata answer
    that is JSON but no object is no failure: the existence check
    returns false, the entry is listed as removed and the loop goes
    on. *)
Theorem remote_failure_is_fatal service fuel token rule :
  (∀ n e p argv found before path later text pre post changed_any w w1,
     remote_failure service token rule n e -> n < fuel ->
     _token p w = (Ok token, w) ->
     rulesets_txt p = Some found ->
     merge_sort String.le found = before ++ path :: later ->
     main_loop service fuel before token (bool_decide ("--check" ∈ argv)) false w
     = (Ok changed_any, w1) ->
     files w1 !! path = Some text ->
     entries_of text = pre ++ rule :: post ->
     Forall (has_verdict service fuel token) pre ->
     verdict service fuel token rule = Raise e
     ∧ ∃ w', main service fuel p argv w = (Raise e, w')
             ∧ exit_status (main service fuel p argv w).1 = Some 1%Z
             ∧ files w' = files w1
             ∧ stdout w' = stdout w1)
  ∧ (∀ data headers rules' kept removed w,
       service token (repo_url rule) = Responded data headers ->
       (∀ d, data ≠ JDict d) ->
       repo_exists service rule token w = (Ok false, after w [repo_url rule])
       ∧ sync_loop service fuel (rule :: rules') token kept removed w
         = sync_loop service fuel rules' token kept (removed ++ [rule])
             (after w [repo_url rule])).
Proof.
  split.
  - intros n e p argv found before path later text pre post c w w1
      Hf Hfuel Ht Hd Hs Hbefore Hfile Hent Hpre.
    pose proof (remote_failure_verdict _ _ _ _ _ _ Hf Hfuel) as Hv.
    split; [done|].
    pose proof (sync_ruleset_raise service fuel token path
                  (bool_decide ("--check" ∈ argv)) text pre rule post e w1
                  Hfile Hent Hpre Hv) as Hsync.
    assert (main service fuel p argv w
            = (Raise e, after w1 (concat (entry_trace service fuel token <$> pre)
                                  ++ entry_trace service fuel token rule))) as Hmain.
    { rewrite (main_run _ _ _ _ _ _ _ Ht Hd), Hs.
      destruct before as [|b before]; cbv zeta.
      - simpl in Hbefore. unfold ret in Hbefore.
        assert (w1 = w) as -> by congruence.
        rewrite app_nil_l. cbn [main_loop]. unfold bind. by rewrite Hsync.
      - rewrite <- app_comm_cons, app_comm_cons, main_loop_app, Hbefore.
        cbn [main_loop]. unfold bind. by rewrite Hsync. }
    eexists. split; [exact Hmain|]. by rewrite Hmain.
  - intros data headers rules' kept removed w Hs Hd.
    assert (repo_exists service rule token w = (Ok false, after w [repo_url rule]))
      as H.
    { rewrite repo_exists_run. unfold existence, found_active. rewrite Hs.
      destruct data; try done. by destruct (Hd d). }
    split; [done|]. cbn [sync_loop]. unfold bind. by rewrite H.
Qed.

Lemma remote_failure_is_fatal_witness :
  (verdict Demo.service 4 "secret" "busy"
   = Raise (GitHubApiError 403 (repo_url "busy") "rate limit exceeded")
   ∧ ∃ w', main Demo.service 4 Sample.busy_proc ["sync_rulesets.py"]
             Sample.busy_world
           = (Raise (GitHubApiError 403 (repo_url "busy") "rate limit exceeded"), w')
           ∧ exit_status (main Demo.service 4 Sample.busy_proc ["sync_rulesets.py"]
                            Sample.busy_world).1 = Some 1%Z
           ∧ files w'
             = files (main_loop Demo.service 4 [Demo.path] "secret" false false
                        Sample.busy_world).2
           ∧ stdout w'
             = stdout (main_loop Demo.service 4 [Demo.path] "secret" false false
                         Sample.busy_world).2)
  ∧ (repo_exists Demo.service "odd" "secret" Demo.world0
     = (Ok false, after Demo.world0 [repo_url "odd"])
     ∧ sync_loop Demo.service 4 ["odd"; "r1"] "secret" [] [] Demo.world0
       = sync_loop Demo.service 4 ["r1"] "secret" [] ([] ++ ["odd"])
           (after Demo.world0 [repo_url "odd"])).
Proof.
  destruct (remote_failure_is_fatal Demo.service 4 "secret" "busy") as [Hf _].
  destruct (remote_failure_is_fatal Demo.service 4 "secret" "odd") as [_ Ho].
  split.
  - apply (Hf 0%nat (GitHubApiError 403 (repo_url "busy") "rate limit exceeded")
             Sample.busy_proc ["sync_rulesets.py"]
             [Sample.busy_path; Demo.path] [Demo.path] Sample.busy_path []
             ("busy" +:+ newline) [] [] true Sample.busy_world).
    + by apply (metadata_status Demo.service "secret" "busy" 403
                  (Some "rate limit exceeded")).
    + lia.
    + reflexivity.
    + reflexivity.
    + vm_compute. reflexivity.
    + vm_compute. reflexivity.
    + vm_compute. reflexivity.
    + vm_compute. reflexivity.
    + constructor.
  - apply (Ho (JList []) []); [reflexivity|done].
Defined.

(** The run of the sample stops at the rate limited entry after it has
    rewritten the file before: that file holds its new text, the file of
    the entry is as it was. *)
Example abort_keeps_earlier_writes_example :
  let run := main Demo.service 4 Sample.busy_proc ["sync_rulesets.py"]
               Sample.busy_world in
  run.1 = Raise (GitHubApiError 403 (repo_url "busy") "rate limit exceeded")
  ∧ files run.2 !! Demo.path = Some ("r1" +:+ newline)
  ∧ files run.2 !! Sample.busy_path = Some ("busy" +:+ newline)
  ∧ stdout run.2
    = ["rulesets/core.txt: removed 1 -> r2"; "rulesets/core.txt: updated"].
Proof. vm_compute. repeat split. Qed.
